(** * Object size detector: shallow embedding of [application/src/main.cpp]

    The program keeps its whole state in global variables that three
    threads share: the capture loop of [main], the worker [frameRunner]
    and the publisher [messageRunner].  The embedding gathers the globals
    in one record [Globals] and writes every function of the source as a
    computation in a small state-and-error monad over that record.  One
    turn of a loop is one step, and a scheduler interleaves the turns of
    the three loops; for what happens at shutdown, a finer scheduler
    takes the test of a background loop and its body as two steps.

    [int] is a 32-bit signed integer.  Signed overflow is undefined
    behaviour in C++, so an arithmetic operation that leaves the range has
    no result here ([None]). *)

From Stdlib Require Import ZArith List Bool String Ascii Lia.
Import ListNotations.
Local Open Scope Z_scope.

(** ** Machine integers *)

Definition INT_MAX : Z := 2147483647.
Definition INT_MIN : Z := -2147483648.

Definition in_int (z : Z) : bool := (INT_MIN <=? z) && (z <=? INT_MAX).

Definition int_checked (z : Z) : option Z := if in_int z then Some z else None.
Definition int_add (a b : Z) : option Z := int_checked (a + b).
Definition int_mul (a b : Z) : option Z := int_checked (a * b).

(** ** OpenCV values *)

(** [cv::Rect]: the default constructor gives the all-zero rectangle. *)
Record Rect : Type := mkRect { x : Z; y : Z; width : Z; height : Z }.

Definition Rect_default : Rect := mkRect 0 0 0 0.

(** [cv::Mat] as a value: its dimensions and its pixel data. *)
Record Mat : Type := mkMat { rows : Z; cols : Z; data : list Z }.

(** [Mat()] *)
Definition Mat_default : Mat := mkMat 0 0 [].

(** [Mat::empty()]: no element, or no data. *)
Definition Mat_empty (m : Mat) : bool :=
  (rows m * cols m =? 0) || match data m with [] => true | _ :: _ => false end.

(** ** The globals *)

(** [struct AssemblyInfo] *)
Record AssemblyInfo : Type := mkInfo {
  inc_total : bool;
  defect : bool;
  area : Z;
  show : bool;
  rect : Rect
}.

(** [AssemblyInfo currentInfo = {false};] zero-initialises every member. *)
Definition currentInfo_init : AssemblyInfo := mkInfo false false 0 false Rect_default.

Record Globals : Type := mkGlobals {
  frame : Mat;                          (* Mat frame *)
  nextImage : list Mat;                 (* queue<Mat> nextImage, front first *)
  keepRunning : bool;                   (* atomic<bool> keepRunning(true) *)
  min_area : Z;
  max_area : Z;
  total_parts : Z;
  total_defects : Z;
  prev_seen : bool;
  prev_defect : bool;
  frame_defect_count : Z;
  frame_ok_count : Z;
  currentInfo : AssemblyInfo;
  mqtt_out : list (string * string);    (* what mqtt_publish was given, oldest first *)
  syslog_out : list string              (* what syslog was given, oldest first *)
}.

Definition set_frame (v : Mat) (g : Globals) : Globals :=
  mkGlobals v (nextImage g) (keepRunning g) (min_area g) (max_area g)
    (total_parts g) (total_defects g) (prev_seen g) (prev_defect g)
    (frame_defect_count g) (frame_ok_count g) (currentInfo g) (mqtt_out g) (syslog_out g).

Definition set_nextImage (v : list Mat) (g : Globals) : Globals :=
  mkGlobals (frame g) v (keepRunning g) (min_area g) (max_area g)
    (total_parts g) (total_defects g) (prev_seen g) (prev_defect g)
    (frame_defect_count g) (frame_ok_count g) (currentInfo g) (mqtt_out g) (syslog_out g).

Definition set_keepRunning (v : bool) (g : Globals) : Globals :=
  mkGlobals (frame g) (nextImage g) v (min_area g) (max_area g)
    (total_parts g) (total_defects g) (prev_seen g) (prev_defect g)
    (frame_defect_count g) (frame_ok_count g) (currentInfo g) (mqtt_out g) (syslog_out g).

Definition set_total_parts (v : Z) (g : Globals) : Globals :=
  mkGlobals (frame g) (nextImage g) (keepRunning g) (min_area g) (max_area g)
    v (total_defects g) (prev_seen g) (prev_defect g)
    (frame_defect_count g) (frame_ok_count g) (currentInfo g) (mqtt_out g) (syslog_out g).

Definition set_total_defects (v : Z) (g : Globals) : Globals :=
  mkGlobals (frame g) (nextImage g) (keepRunning g) (min_area g) (max_area g)
    (total_parts g) v (prev_seen g) (prev_defect g)
    (frame_defect_count g) (frame_ok_count g) (currentInfo g) (mqtt_out g) (syslog_out g).

Definition set_prev_seen (v : bool) (g : Globals) : Globals :=
  mkGlobals (frame g) (nextImage g) (keepRunning g) (min_area g) (max_area g)
    (total_parts g) (total_defects g) v (prev_defect g)
    (frame_defect_count g) (frame_ok_count g) (currentInfo g) (mqtt_out g) (syslog_out g).

Definition set_prev_defect (v : bool) (g : Globals) : Globals :=
  mkGlobals (frame g) (nextImage g) (keepRunning g) (min_area g) (max_area g)
    (total_parts g) (total_defects g) (prev_seen g) v
    (frame_defect_count g) (frame_ok_count g) (currentInfo g) (mqtt_out g) (syslog_out g).

Definition set_frame_defect_count (v : Z) (g : Globals) : Globals :=
  mkGlobals (frame g) (nextImage g) (keepRunning g) (min_area g) (max_area g)
    (total_parts g) (total_defects g) (prev_seen g) (prev_defect g)
    v (frame_ok_count g) (currentInfo g) (mqtt_out g) (syslog_out g).

Definition set_frame_ok_count (v : Z) (g : Globals) : Globals :=
  mkGlobals (frame g) (nextImage g) (keepRunning g) (min_area g) (max_area g)
    (total_parts g) (total_defects g) (prev_seen g) (prev_defect g)
    (frame_defect_count g) v (currentInfo g) (mqtt_out g) (syslog_out g).

Definition set_currentInfo (v : AssemblyInfo) (g : Globals) : Globals :=
  mkGlobals (frame g) (nextImage g) (keepRunning g) (min_area g) (max_area g)
    (total_parts g) (total_defects g) (prev_seen g) (prev_defect g)
    (frame_defect_count g) (frame_ok_count g) v (mqtt_out g) (syslog_out g).

Definition set_mqtt_out (v : list (string * string)) (g : Globals) : Globals :=
  mkGlobals (frame g) (nextImage g) (keepRunning g) (min_area g) (max_area g)
    (total_parts g) (total_defects g) (prev_seen g) (prev_defect g)
    (frame_defect_count g) (frame_ok_count g) (currentInfo g) v (syslog_out g).

Definition set_syslog_out (v : list string) (g : Globals) : Globals :=
  mkGlobals (frame g) (nextImage g) (keepRunning g) (min_area g) (max_area g)
    (total_parts g) (total_defects g) (prev_seen g) (prev_defect g)
    (frame_defect_count g) (frame_ok_count g) (currentInfo g) (mqtt_out g) v.

(** The globals when [main] has parsed [minarea] and [maxarea] and is about
    to start the worker threads. *)
Definition globals_init (minarea maxarea : Z) : Globals :=
  mkGlobals Mat_default [] true minarea maxarea 0 0 false false 0 0
    currentInfo_init [] [].

(** ** The monad of the program: state over [Globals], [None] for
    undefined behaviour *)

Definition M (A : Type) : Type := Globals -> option (A * Globals).

Definition ret {A : Type} (a : A) : M A := fun g => Some (a, g).

Definition bind {A B : Type} (c : M A) (k : A -> M B) : M B :=
  fun g => match c g with
           | Some (a, g') => k a g'
           | None => None
           end.

Definition gets {A : Type} (f : Globals -> A) : M A := fun g => Some (f g, g).

Definition modify (f : Globals -> Globals) : M unit := fun g => Some (tt, f g).

Definition lift {A : Type} (o : option A) : M A :=
  fun g => match o with
           | Some a => Some (a, g)
           | None => None
           end.

Declare Scope prog_scope.
Delimit Scope prog_scope with prog.
Notation "x <- c ;; k" := (bind c (fun x => k))
  (at level 61, c at next level, right associativity) : prog_scope.
Notation "c ;; k" := (bind c (fun _ => k))
  (at level 61, right associativity) : prog_scope.
Local Open Scope prog_scope.

(** [when b c]: an [if] without [else]. *)
Definition when (b : bool) (c : M unit) : M unit := if b then c else ret tt.

(** [v++] on an [int] global read by [rd] and written by [wr]. *)
Definition incr (rd : Globals -> Z) (wr : Z -> Globals -> Globals) : M unit :=
  v <- gets rd ;;
  v' <- lift (int_add v 1) ;;
  modify (wr v').

(** The value and the final globals of a run. *)
Definition result {A : Type} (r : option (A * Globals)) : option A :=
  match r with Some (a, _) => Some a | None => None end.

Definition final {A : Type} (r : option (A * Globals)) : option Globals :=
  match r with Some (_, g) => Some g | None => None end.

(** ** The frame queue *)

(** [Mat nextImageAvailable()] *)
Definition nextImageAvailable : M Mat :=
  q <- gets nextImage ;;
  match q with
  | front :: rest => modify (set_nextImage rest) ;; ret front
  | [] => ret Mat_default
  end.

(** [void addImage(Mat img)] *)
Definition addImage (img : Mat) : M unit :=
  q <- gets nextImage ;;
  when (match q with [] => true | _ :: _ => false end)
       (modify (set_nextImage (q ++ [img]))).

(** ** The shared [AssemblyInfo] *)

(** [AssemblyInfo getCurrentInfo()] *)
Definition getCurrentInfo : M AssemblyInfo := gets currentInfo.

(** [void updateInfo(AssemblyInfo info)]: [currentInfo.inc_total] is not
    assigned. *)
Definition updateInfo (info : AssemblyInfo) : M unit :=
  modify (fun g => set_currentInfo
            (mkInfo (inc_total (currentInfo g)) (defect info) (area info)
                    (show info) (rect info)) g) ;;
  when (inc_total info) (incr total_parts set_total_parts) ;;
  when (defect info) (incr total_defects set_total_defects).

(** [void resetInfo()] *)
Definition resetInfo : M unit :=
  modify (fun g => set_currentInfo
            (mkInfo false false 0 (show (currentInfo g)) Rect_default) g).

(** ** Telemetry *)

Local Open Scope string_scope.

(** [const string topic] *)
Definition topic : string := "defects/counter".

(** The one-character string holding a double quote. *)
Definition dquote : string := String "034"%char EmptyString.

(** [ostream << bool] with the stream's default flags (no [boolalpha]). *)
Definition ostream_bool (b : bool) : string := if b then "1" else "0".

(** [mqtt_publish] and [syslog] are outside the file: what they are handed
    is appended to [mqtt_out] and [syslog_out]. *)
Definition mqtt_publish (t payload : string) : M unit :=
  modify (fun g => set_mqtt_out (mqtt_out g ++ [(t, payload)]) g).

Definition syslog (msg : string) : M unit :=
  modify (fun g => set_syslog_out (syslog_out g ++ [msg]) g).

(** [void publishMQTTMessage(const string& topic, const AssemblyInfo& info)] *)
Definition publishMQTTMessage (t : string) (info : AssemblyInfo) : M unit :=
  let payload :=
    "{" ++ dquote ++ "Defect" ++ dquote ++ ": " ++ dquote
        ++ ostream_bool (defect info) ++ dquote ++ "}" in
  mqtt_publish t payload ;;
  syslog ("MQTT message published to topic: " ++ t) ;;
  syslog payload.

(** One turn of the loop of [messageRunner] (the sleep left out). *)
Definition messageRunner_iter : M unit :=
  info <- getCurrentInfo ;;
  publishMQTTMessage topic info.

Local Close Scope string_scope.

(** ** The worker *)

(** The part of [frameRunner] from [if (part_area != 0)] to the
    construction of [info]: the locals [defect], [frame_defect] and
    [inc_total] start out [false]; [flags] is the pair of [defect] and
    [inc_total] when the [if] is left. *)
Definition classify (part_area : Z) (max_rect : Rect) : M AssemblyInfo :=
  flags <-
    (if negb (part_area =? 0) then
       mx <- gets max_area ;;
       mn <- gets min_area ;;
       frame_defect <-
         (if (part_area >? mx) || (part_area <? mn) then
            incr frame_defect_count set_frame_defect_count ;; ret true
          else
            incr frame_ok_count set_frame_ok_count ;; ret false) ;;
       seen <- gets prev_seen ;;
       if negb seen then
         modify (set_prev_seen true) ;;
         ret (false, true)
       else
         okc <- gets frame_ok_count ;;
         when (negb frame_defect && (okc >? 10))
              (modify (set_frame_defect_count 0)) ;;
         dc <- gets frame_defect_count ;;
         if frame_defect && (dc >? 10) then
           pd <- gets prev_defect ;;
           d <- (if negb pd then modify (set_prev_defect true) ;; ret true
                 else ret false) ;;
           modify (set_frame_ok_count 0) ;;
           ret (d, false)
         else ret (false, false)
     else
       modify (set_prev_seen false) ;;
       modify (set_prev_defect false) ;;
       modify (set_frame_defect_count 0) ;;
       modify (set_frame_ok_count 0) ;;
       ret (false, false)) ;;
  pd <- gets prev_defect ;;
  ret (mkInfo (snd flags) (fst flags) part_area pd max_rect).

(** The tail of one turn of [frameRunner], from the measurement
    [(part_area, max_rect)] on: classify, then [updateInfo(info)]. *)
Definition process (m : Z * Rect) : M AssemblyInfo :=
  info <- classify (fst m) (snd m) ;;
  updateInfo info ;;
  ret info.

(** The same over a sequence of measurements, one per processed frame. *)
Fixpoint processAll (ms : list (Z * Rect)) : M (list AssemblyInfo) :=
  match ms with
  | [] => ret []
  | m :: rest =>
      info <- process m ;;
      infos <- processAll rest ;;
      ret (info :: infos)
  end.

(** The body of the [for] loop over the contours: [acc] is
    [(max_blob_area, max_rect)]; [&&] evaluates left to right and stops at
    the first false operand. *)
Definition consider (img_cols : Z) (acc : Z * Rect) (r : Rect) : option (Z * Rect) :=
  match int_mul (width r) (height r) with
  | None => None
  | Some part_area =>
      if part_area >? fst acc then
        if x r >? 0 then
          match int_add (x r) (width r) with
          | None => None
          | Some right_edge =>
              if (right_edge <? img_cols) && (width r >? 30)
              then Some (part_area, r) else Some acc
          end
        else Some acc
      else Some acc
  end.

Fixpoint largest (img_cols : Z) (rs : list Rect) (acc : Z * Rect) : option (Z * Rect) :=
  match rs with
  | [] => Some acc
  | r :: rest =>
      match consider img_cols acc r with
      | Some acc' => largest img_cols rest acc'
      | None => None
      end
  end.

(** The three loops, one turn each.  Which loop takes the next turn is
    the scheduler's choice. *)
Inductive Turn : Type :=
| Capture (grabbed : Mat) (stop : bool)
| Worker
| Publisher.

Section Loops.

(** [cvtColor], [GaussianBlur], the three [morphologyEx], [threshold] and
    [findContours] on a frame, then [boundingRect] of every contour, in
    the order of [contours].  The grey image has the frame's [cols]. *)
Variable contourRects : Mat -> list Rect.

(** [resize(frame, frame, Size(960, 540))] *)
Variable resize : Mat -> Mat.

(** From [cvtColor(frame, img, ...)] to [part_area = max_blob_area]: the
    image read is the global [frame]. *)
Definition measure : M (Z * Rect) :=
  fr <- gets frame ;;
  lift (largest (cols fr) (contourRects fr) (0, Rect_default)).

(** One turn of the [while] loop of [frameRunner]. *)
Definition frameRunner_iter : M unit :=
  next <- nextImageAvailable ;;
  when (negb (Mat_empty next))
       (m <- measure ;;
        process m ;;
        ret tt).

(** One turn of the [for (;;)] loop of [main], display left out:
    [grabbed] is what [cap.read] delivers, [stop] whether a key was
    pressed or SIGTERM caught.  The result says whether the loop goes
    on. *)
Definition main_iter (grabbed : Mat) (stop : bool) : M bool :=
  modify (set_frame grabbed) ;;
  if Mat_empty grabbed then
    modify (set_keepRunning false) ;; ret false
  else
    modify (set_frame (resize grabbed)) ;;
    fr <- gets frame ;;
    addImage fr ;;
    getCurrentInfo ;;
    if stop then modify (set_keepRunning false) ;; ret false
    else ret true.

(** A turn of a background loop runs only while [keepRunning].  A turn is
    the [while] test and the loop body in one step: an iteration that has
    passed its test when [main] clears the flag, and then runs its body,
    is not among the runs of [schedule].  [fine_schedule] below takes the
    test and the body apart. *)
Definition turn (t : Turn) : M unit :=
  match t with
  | Capture grabbed stop => main_iter grabbed stop ;; ret tt
  | Worker => k <- gets keepRunning ;; when k frameRunner_iter
  | Publisher => k <- gets keepRunning ;; when k messageRunner_iter
  end.

Fixpoint schedule (ts : list Turn) : M unit :=
  match ts with
  | [] => ret tt
  | t :: rest => turn t ;; schedule rest
  end.

End Loops.

(** ** Vocabulary of the statements *)

(** A frame fails when its area is outside [[min_area, max_area]]. *)
Definition frame_fails (g : Globals) (part_area : Z) : bool :=
  (part_area >? max_area g) || (part_area <? min_area g).

(** A measurement shows a part when its area is not 0. *)
Definition present (m : Z * Rect) : bool := negb (fst m =? 0).

(** The positions (from 1) of the verdicts that report a defect. *)
Fixpoint defect_positions (n : nat) (infos : list AssemblyInfo) : list nat :=
  match infos with
  | [] => []
  | i :: rest =>
      if defect i then n :: defect_positions (S n) rest
      else defect_positions (S n) rest
  end.

(** The length of the longest run of consecutive failing frames. *)
Fixpoint longest_failing_run (g : Globals) (cur best : nat) (ms : list (Z * Rect)) : nat :=
  match ms with
  | [] => Nat.max cur best
  | m :: rest =>
      if present m && frame_fails g (fst m)
      then longest_failing_run g (S cur) best rest
      else longest_failing_run g 0 (Nat.max cur best) rest
  end.

(** Following the words of the claim, with the two ways the code clears
    its count: whether the number of failing frames of the part in view,
    counted since the count was last cleared, stays at or below [limit]
    over [ms].  A frame without a part clears the count, and so does a
    passing frame of a part already in view that brings the number of
    passing frames above 10; a single passing frame does not.  [seen]
    says whether a part is in view, [ok] and [d] are the passing and the
    failing frames counted so far. *)
Fixpoint failing_count_within (limit : Z) (g : Globals) (seen : bool) (ok d : Z)
    (ms : list (Z * Rect)) : bool :=
  match ms with
  | [] => true
  | m :: rest =>
      if present m then
        if frame_fails g (fst m) then
          (d + 1 <=? limit) && failing_count_within limit g true ok (d + 1) rest
        else
          failing_count_within limit g true (ok + 1)
            (if seen && (ok + 1 >? 10) then 0 else d) rest
      else failing_count_within limit g false 0 0 rest
  end.

(** Every part that may still be reported is already in [total_parts]. *)
Definition defects_covered (g : Globals) : Prop :=
  total_defects g + (if prev_seen g && negb (prev_defect g) then 1 else 0)
    <= total_parts g.

(** The four counters after at most [n] processed frames. *)
Definition counters_below (n : Z) (g : Globals) : Prop :=
  0 <= total_parts g <= n /\ 0 <= total_defects g <= n /\
  0 <= frame_defect_count g <= n /\ 0 <= frame_ok_count g <= n.

(** The text [{"Defect": "v"}], character by character: a JSON object
    whose one field [Defect] is the string [v]. *)
Definition json_Defect (v : string) : string :=
  (string_of_list_ascii
     (map ascii_of_nat [123; 34; 68; 101; 102; 101; 99; 116; 34; 58; 32; 34]%nat)
   ++ v ++ string_of_list_ascii (map ascii_of_nat [34; 125]%nat))%string.

(** What the publisher may hand to [mqtt_publish]. *)
Definition published_ok (p : string * string) : Prop :=
  p = (topic, json_Defect "1") \/ p = (topic, json_Defect "0").

(** What every turn of every loop keeps true. *)
Definition kept (g : Globals) : Prop :=
  defects_covered g /\ Forall published_ok (mqtt_out g) /\
  (List.length (nextImage g) <= 1)%nat.

(** ** The rest of [main.cpp] *)

(** [int handleMQTTControlMessages(...)]: of its arguments only
    [topicName] is read. *)
Definition handleMQTTControlMessages (topicName : string) : M Z :=
  syslog ("MQTT message received: " ++ topicName)%string ;;
  ret 1.

(** What [main] opens as its video source. *)
Inductive Source : Type :=
| Camera (index : Z)
| Path (name : string).

(** The choice of the source in [main]: [input.size() == 1] and the one
    character between ['0'] and ['9'] gives [cap.open(std::stoi(input))],
    anything else [cap.open(input)].  A [char] above 127 is negative where
    [char] is signed and fails the first comparison; here it fails the
    second. *)
Definition open_source (input : string) : Source :=
  match input with
  | String c EmptyString =>
      if (nat_of_ascii "0" <=? nat_of_ascii c)%nat
         && (nat_of_ascii c <=? nat_of_ascii "9")%nat
      then Camera (Z.of_nat (nat_of_ascii c) - Z.of_nat (nat_of_ascii "0"))
      else Path input
  | _ => Path input
  end.

(** ** More vocabulary *)

(** The three tests of the contour loop that do not depend on the area
    found so far. *)
Definition qualifies (img_cols : Z) (r : Rect) : bool :=
  (x r >? 0) && (x r + width r <? img_cols) && (width r >? 30).

(** The globals that the classification reads and writes. *)
Definition core (g : Globals) : Z * Z * Z * Z * bool * bool * Z * Z * AssemblyInfo :=
  (min_area g, max_area g, total_parts g, total_defects g, prev_seen g,
   prev_defect g, frame_defect_count g, frame_ok_count g, currentInfo g).

(** How many verdicts have the flag [f]. *)
Fixpoint count_flag (f : AssemblyInfo -> bool) (infos : list AssemblyInfo) : Z :=
  match infos with
  | [] => 0
  | i :: rest => (if f i then 1 else 0) + count_flag f rest
  end.

(** How many times a part arrives in [ms]: a frame with a part that
    follows a frame without one; [seen] says whether a part was in view
    before the first frame. *)
Fixpoint count_arrivals (seen : bool) (ms : list (Z * Rect)) : Z :=
  match ms with
  | [] => 0
  | m :: rest =>
      if present m
      then (if seen then 0 else 1) + count_arrivals true rest
      else count_arrivals false rest
  end.

(** How many turns of the capture loop grabbed a frame that is not empty,
    and how many turns the publisher was given. *)
Fixpoint captured (ts : list Turn) : Z :=
  match ts with
  | [] => 0
  | Capture grabbed _ :: rest =>
      (if Mat_empty grabbed then 0 else 1) + captured rest
  | _ :: rest => captured rest
  end.

Fixpoint publisher_turns (ts : list Turn) : Z :=
  match ts with
  | [] => 0
  | Publisher :: rest => 1 + publisher_turns rest
  | _ :: rest => publisher_turns rest
  end.

(** What holds of the classifier's globals in every state the program
    reaches. *)
Definition classifier_consistent (g : Globals) : Prop :=
  (prev_seen g = false ->
   prev_defect g = false /\ frame_defect_count g = 0 /\ frame_ok_count g = 0) /\
  0 <= frame_defect_count g /\ 0 <= frame_ok_count g /\
  0 <= total_defects g /\ 0 <= total_parts g /\
  show (currentInfo g) = prev_defect g /\
  inc_total (currentInfo g) = false.

(** ** The loop tests apart from the loop bodies *)

(** Where the two background threads stand: past the [while] test of
    their loop and about to run its body, or before the test. *)
Record Threads : Type := mkThreads {
  worker_in_body : bool;
  publisher_in_body : bool
}.

(** The steps of the three threads: [Grab] is a turn of the loop of [main]
    that goes on, [Stop] the assignment [keepRunning = false] after
    [waitKey] or a caught signal; a background loop takes its test and
    its body in two steps. *)
Inductive FineTurn : Type :=
| Grab (grabbed : Mat)
| Stop
| WorkerTest
| WorkerBody
| PublisherTest
| PublisherBody.

Section FineLoops.

Variable contourRects : Mat -> list Rect.
Variable resize : Mat -> Mat.

(** A step that a thread is not ready for (a body before its test, a test
    while the body is pending) does nothing.  A test that finds
    [keepRunning] false leaves the thread before its test: the loop has
    ended. *)
Definition fine_turn (t : FineTurn) (th : Threads) : M Threads :=
  match t with
  | Grab grabbed => main_iter resize grabbed false ;; ret th
  | Stop => modify (set_keepRunning false) ;; ret th
  | WorkerTest =>
      if worker_in_body th then ret th
      else k <- gets keepRunning ;; ret (mkThreads k (publisher_in_body th))
  | WorkerBody =>
      if worker_in_body th
      then frameRunner_iter contourRects ;;
           ret (mkThreads false (publisher_in_body th))
      else ret th
  | PublisherTest =>
      if publisher_in_body th then ret th
      else k <- gets keepRunning ;; ret (mkThreads (worker_in_body th) k)
  | PublisherBody =>
      if publisher_in_body th
      then messageRunner_iter ;; ret (mkThreads (worker_in_body th) false)
      else ret th
  end.

Fixpoint fine_schedule (ts : list FineTurn) (th : Threads) : M Threads :=
  match ts with
  | [] => ret th
  | t :: rest => th' <- fine_turn t th ;; fine_schedule rest th'
  end.

End FineLoops.

(** * Proofs *)

(** ** Running a computation by cases *)

Ltac prog_step :=
  cbv beta iota zeta delta
      [process classify updateInfo incr when bind ret gets modify lift
       int_add int_checked negb andb orb
       nextImageAvailable addImage getCurrentInfo resetInfo
       messageRunner_iter publishMQTTMessage mqtt_publish syslog main_iter
       set_frame set_nextImage set_keepRunning set_total_parts set_total_defects
       set_prev_seen set_prev_defect set_frame_defect_count set_frame_ok_count
       set_currentInfo set_mqtt_out set_syslog_out
       frame nextImage keepRunning min_area max_area total_parts total_defects
       prev_seen prev_defect frame_defect_count frame_ok_count currentInfo
       mqtt_out syslog_out
       inc_total defect area show rect fst snd present frame_fails] in *.

Ltac prog_case1 :=
  match goal with
   | |- context [?a =? ?b] => destruct (Z.eqb_spec a b)
   | |- context [?a >? ?b] => destruct (Z.gtb_spec a b)
   | |- context [?a <? ?b] => destruct (Z.ltb_spec a b)
   | |- context [in_int ?a] => destruct (in_int a) eqn:?
   | |- context [if ?b then _ else _] => is_var b; destruct b
   | H : context [?a =? ?b] |- _ => destruct (Z.eqb_spec a b)
   | H : context [?a >? ?b] |- _ => destruct (Z.gtb_spec a b)
   | H : context [?a <? ?b] |- _ => destruct (Z.ltb_spec a b)
   | H : context [in_int ?a] |- _ =>
       lazymatch type of H with
       | in_int _ = _ => fail
       | _ => destruct (in_int a) eqn:?
       end
   | H : context [if ?b then _ else _] |- _ => is_var b; destruct b
   | |- context [match ?l with [] => _ | _ :: _ => _ end] => is_var l; destruct l
   | H : context [match ?l with [] => _ | _ :: _ => _ end] |- _ => is_var l; destruct l
   | |- context [Mat_empty ?m] => destruct (Mat_empty m) eqn:?
   | H : context [Mat_empty ?m] |- _ =>
       lazymatch type of H with
       | Mat_empty _ = _ => fail
       | _ => destruct (Mat_empty m) eqn:?
       end
   end.

Ltac prog_inv :=
  repeat match goal with
   | H : Some _ = Some _ |- _ => inversion H; subst; clear H
   | H : None = Some _ |- _ => discriminate H
   | H : Some _ = None |- _ => discriminate H
   end.

Ltac prog_cases := prog_step; repeat (prog_case1; prog_step).

Ltac prog_run := prog_cases; prog_inv; prog_cases.

Lemma in_int_range (z : Z) : in_int z = true <-> INT_MIN <= z <= INT_MAX.
Proof. unfold in_int. rewrite andb_true_iff, !Z.leb_le. tauto. Qed.

(** ** One tick of the classifier *)

(** [updateInfo] leaves the classifier's globals and the bounds alone, so
    what holds of them after [classify] holds after [process]. *)
Lemma process_classify (m : Z * Rect) (g g' : Globals) (info : AssemblyInfo) :
  process m g = Some (info, g') ->
  exists g1, classify (fst m) (snd m) g = Some (info, g1) /\
             prev_seen g' = prev_seen g1 /\ prev_defect g' = prev_defect g1 /\
             frame_defect_count g' = frame_defect_count g1 /\
             frame_ok_count g' = frame_ok_count g1 /\
             min_area g' = min_area g1 /\ max_area g' = max_area g1.
Proof.
  unfold process at 1, bind at 1 2.
  destruct (classify (fst m) (snd m) g) as [[i g1]|] eqn:E; [|discriminate].
  intros H. exists g1. destruct g1, i. clear E. prog_run; repeat split; reflexivity.
Qed.

Lemma classify_bounds (a : Z) (r : Rect) (g g' : Globals) (info : AssemblyInfo) :
  classify a r g = Some (info, g') ->
  min_area g' = min_area g /\ max_area g' = max_area g.
Proof. destruct g. intros H. prog_run; auto. Qed.

Lemma process_bounds (m : Z * Rect) (g g' : Globals) (info : AssemblyInfo) :
  process m g = Some (info, g') ->
  min_area g' = min_area g /\ max_area g' = max_area g.
Proof.
  intros H. destruct (process_classify _ _ _ _ H) as (g1 & Hc & _ & _ & _ & _ & Hmn & Hmx).
  apply classify_bounds in Hc. destruct Hc. split; congruence.
Qed.

(** C9: a frame without a part clears the four classifier globals and
    yields the verdict with [defect], [show] and [inc_total] all false,
    whatever the globals were; the next frame with a part is then
    classified as the first frame of a part, with [inc_total] true. *)
Theorem absence_resets_classifier (g : Globals) (m : Z * Rect) :
  present m = false ->
  exists g',
    process m g = Some (mkInfo false false 0 false (snd m), g') /\
    prev_seen g' = false /\ prev_defect g' = false /\
    frame_defect_count g' = 0 /\ frame_ok_count g' = 0 /\
    forall m2, present m2 = true ->
      exists info2 g2,
        classify (fst m2) (snd m2) g' = Some (info2, g2) /\
        inc_total info2 = true /\ prev_seen g2 = true.
Proof.
  destruct g, m as [a r]. intros H. prog_run; try discriminate. subst a.
  eexists. split; [reflexivity|]. cbn. repeat split.
  intros [a2 r2] H2. prog_run; try discriminate; try (vm_compute in *; discriminate).
  all: eexists _, _; repeat split.
Qed.

Lemma absence_resets_classifier_witness :
  present (0, Rect_default) = false /\
  exists g',
    process (0, Rect_default) (globals_init 20000 30000)
      = Some (mkInfo false false 0 false Rect_default, g') /\
    prev_seen g' = false /\ prev_defect g' = false /\
    frame_defect_count g' = 0 /\ frame_ok_count g' = 0 /\
    forall m2, present m2 = true ->
      exists info2 g2,
        classify (fst m2) (snd m2) g' = Some (info2, g2) /\
        inc_total info2 = true /\ prev_seen g2 = true.
Proof.
  split; [reflexivity|].
  apply (absence_resets_classifier (globals_init 20000 30000) (0, Rect_default)).
  reflexivity.
Defined.

Lemma processAll_cons (m : Z * Rect) (ms : list (Z * Rect)) (g g' : Globals)
    (infos : list AssemblyInfo) :
  processAll (m :: ms) g = Some (infos, g') ->
  exists info g1 infos',
    process m g = Some (info, g1) /\ processAll ms g1 = Some (infos', g') /\
    infos = info :: infos'.
Proof.
  cbn [processAll]. unfold bind at 1.
  destruct (process m g) as [[info g1]|]; [|discriminate].
  unfold bind at 1.
  destruct (processAll ms g1) as [[infos' g2]|] eqn:E; [|discriminate].
  unfold ret. intros H. inversion H; subst.
  exists info, g1, infos'. split; [reflexivity | split; [exact E | reflexivity]].
Qed.

Lemma processAll_nil (g g' : Globals) (infos : list AssemblyInfo) :
  processAll [] g = Some (infos, g') -> infos = [] /\ g' = g.
Proof. cbn. unfold ret. intros H. inversion H; auto. Qed.

(** C3 (as amended): on a frame with a part exactly one of the two
    counters goes up by one, the defect counter when the frame fails and
    the ok counter when it passes, the first frame of a part included;
    the other counter keeps its value, or becomes 0 when the part was
    seen before and the counter that went up is now above 10.  On a frame
    without a part both counters become 0. *)
Theorem counters_after_tick
    (g : Globals) (a : Z) (r : Rect) (info : AssemblyInfo) (g' : Globals) :
  classify a r g = Some (info, g') ->
  if a =? 0 then
    frame_defect_count g' = 0 /\ frame_ok_count g' = 0
  else if frame_fails g a then
    frame_defect_count g' = frame_defect_count g + 1 /\
    frame_ok_count g' =
      (if prev_seen g && (frame_defect_count g + 1 >? 10) then 0
       else frame_ok_count g)
  else
    frame_ok_count g' = frame_ok_count g + 1 /\
    frame_defect_count g' =
      (if prev_seen g && (frame_ok_count g + 1 >? 10) then 0
       else frame_defect_count g).
Proof.
  destruct g. intros H. prog_run; split; first [reflexivity | lia].
Qed.

Lemma counters_after_tick_witness :
  exists info g',
    classify 35000 Rect_default (globals_init 20000 30000) = Some (info, g') /\
    frame_defect_count g' = 1 /\ frame_ok_count g' = 0.
Proof.
  eexists _, _. split; [reflexivity|].
  exact (counters_after_tick (globals_init 20000 30000) 35000 Rect_default _ _ eq_refl).
Defined.

(** C3 as stated fails: after three passing frames of a part, a failing
    frame raises the defect counter and leaves the ok counter at 3 (it is
    not reset to 0); and the first frame of a part, a presence transition,
    leaves the ok counter at 1, not 0. *)
Lemma counters_not_reset_example :
  option_map (fun p => (prev_seen (snd p), frame_ok_count (snd p), frame_defect_count (snd p)))
    (processAll (repeat (25000, Rect_default) 3) (globals_init 20000 30000))
    = Some (true, 3, 0) /\
  option_map (fun p => (frame_ok_count (snd p), frame_defect_count (snd p)))
    (processAll (repeat (25000, Rect_default) 3 ++ [(35000, Rect_default)])
       (globals_init 20000 30000))
    = Some (3, 1) /\
  option_map (fun p => (inc_total (fst p), frame_ok_count (snd p), frame_defect_count (snd p)))
    (classify 25000 Rect_default (globals_init 20000 30000))
    = Some (true, 1, 0).
Proof. repeat split. Qed.

(** ** The defect flag latches *)

Lemma process_latched (m : Z * Rect) (g g' : Globals) (info : AssemblyInfo) :
  process m g = Some (info, g') ->
  present m = true -> prev_defect g = true ->
  defect info = false /\ prev_defect g' = true.
Proof.
  destruct g, m as [a r]. intros H Hp Hd. prog_run; try discriminate; auto.
Qed.

Lemma process_fires_latches (m : Z * Rect) (g g' : Globals) (info : AssemblyInfo) :
  process m g = Some (info, g') ->
  defect info = true -> prev_defect g' = true.
Proof.
  destruct g, m as [a r]. intros H Hd. prog_run; try discriminate; auto.
Qed.

Lemma processAll_latched (ms : list (Z * Rect)) :
  forall (g g' : Globals) (infos : list AssemblyInfo),
  Forall (fun m => present m = true) ms ->
  prev_defect g = true ->
  processAll ms g = Some (infos, g') ->
  Forall (fun i => defect i = false) infos.
Proof.
  induction ms as [|m ms IH]; intros g g' infos Hall Hd Hrun.
  - apply processAll_nil in Hrun. destruct Hrun; subst. constructor.
  - apply processAll_cons in Hrun. destruct Hrun as (info & g1 & infos' & H1 & H2 & ->).
    inversion Hall; subst.
    destruct (process_latched _ _ _ _ H1) as [Hi Hg1]; auto.
    constructor; eauto.
Qed.

Lemma defect_positions_none (infos : list AssemblyInfo) (n : nat) :
  Forall (fun i => defect i = false) infos -> defect_positions n infos = [].
Proof.
  intros H. revert n. induction H as [|i infos Hi _ IH]; intros n; cbn; [reflexivity|].
  rewrite Hi. apply IH.
Qed.

Lemma at_most_one_defect (ms : list (Z * Rect)) :
  forall (g g' : Globals) (infos : list AssemblyInfo) (n : nat),
  Forall (fun m => present m = true) ms ->
  processAll ms g = Some (infos, g') ->
  (List.length (defect_positions n infos) <= 1)%nat.
Proof.
  induction ms as [|m ms IH]; intros g g' infos n Hall Hrun.
  - apply processAll_nil in Hrun. destruct Hrun; subst. cbn. lia.
  - apply processAll_cons in Hrun. destruct Hrun as (info & g1 & infos' & H1 & H2 & ->).
    inversion Hall; subst. cbn [defect_positions].
    destruct (defect info) eqn:Hd.
    + apply process_fires_latches in H1; [|assumption].
      rewrite (defect_positions_none infos'); [cbn; lia|].
      eapply processAll_latched; eauto.
    + eapply IH; eauto.
Qed.

(** C6: once a frame of a part yields [defect = true], no later frame
    yields it while every frame shows a part; and over any run of frames
    that all show a part, whatever the globals at its start, at most one
    verdict has [defect = true]. *)
Theorem defect_reported_once :
  (forall (g : Globals) (m : Z * Rect) (info : AssemblyInfo) (g1 : Globals)
          (ms : list (Z * Rect)) (infos : list AssemblyInfo) (g2 : Globals),
      process m g = Some (info, g1) -> defect info = true ->
      Forall (fun m' => present m' = true) ms ->
      processAll ms g1 = Some (infos, g2) ->
      Forall (fun i => defect i = false) infos) /\
  (forall (g : Globals) (ms : list (Z * Rect)) (infos : list AssemblyInfo)
          (g' : Globals),
      Forall (fun m => present m = true) ms ->
      processAll ms g = Some (infos, g') ->
      (List.length (defect_positions 1 infos) <= 1)%nat).
Proof.
  split.
  - intros g m info g1 ms infos g2 H1 Hd Hall Hrun.
    eapply processAll_latched; eauto using process_fires_latches.
  - intros g ms infos g' Hall Hrun. eapply at_most_one_defect; eauto.
Qed.

Lemma defect_reported_once_witness :
  exists infos0 g info g1 infos g2,
    processAll (repeat (35000, Rect_default) 10) (globals_init 20000 30000)
      = Some (infos0, g) /\
    process (35000, Rect_default) g = Some (info, g1) /\
    defect info = true /\
    Forall (fun m' => present m' = true) (repeat (35000, Rect_default) 3) /\
    processAll (repeat (35000, Rect_default) 3) g1 = Some (infos, g2) /\
    Forall (fun i => defect i = false) infos.
Proof.
  let r := eval vm_compute in
        (processAll (repeat (35000, Rect_default) 10) (globals_init 20000 30000)) in
  lazymatch r with
  | Some (?i0, ?g) =>
      exists i0, g; eexists _, _, _, _;
      split; [vm_compute; reflexivity|];
      split; [vm_compute; reflexivity|];
      split; [reflexivity|];
      split; [repeat constructor|];
      split; [vm_compute; reflexivity|];
      eapply (proj1 defect_reported_once g (35000, Rect_default) _ _
                (repeat (35000, Rect_default) 3));
      [vm_compute; reflexivity | reflexivity | repeat constructor
      | vm_compute; reflexivity]
  end.
Defined.

(** ** The totals *)

Lemma process_defects_covered (m : Z * Rect) (g g' : Globals) (info : AssemblyInfo) :
  process m g = Some (info, g') -> defects_covered g -> defects_covered g'.
Proof.
  unfold defects_covered. destruct g, m as [a r]. intros H Hinv.
  prog_run; lia.
Qed.

Lemma processAll_defects_covered (ms : list (Z * Rect)) :
  forall (g g' : Globals) (infos : list AssemblyInfo),
  processAll ms g = Some (infos, g') -> defects_covered g -> defects_covered g'.
Proof.
  induction ms as [|m ms IH]; intros g g' infos Hrun Hinv.
  - apply processAll_nil in Hrun. destruct Hrun; subst. assumption.
  - apply processAll_cons in Hrun. destruct Hrun as (info & g1 & infos' & H1 & H2 & ->).
    eauto using process_defects_covered.
Qed.

Lemma defects_covered_le (g : Globals) :
  defects_covered g -> total_defects g <= total_parts g.
Proof.
  unfold defects_covered. destruct (prev_seen g && negb (prev_defect g)); lia.
Qed.

Lemma in_int_false (z : Z) : in_int z = false -> INT_MIN <= z <= INT_MAX -> False.
Proof. intros H R. apply in_int_range in R. congruence. Qed.

Ltac no_overflow :=
  match goal with
  | H : in_int ?z = false |- _ =>
      exfalso; apply (in_int_false z H); unfold INT_MIN, INT_MAX in *; lia
  end.

(** No counter overflows before [INT_MAX] frames have been processed. *)
Lemma process_defined (m : Z * Rect) (g : Globals) (n : Z) :
  counters_below n g -> n < INT_MAX ->
  exists info g', process m g = Some (info, g') /\ counters_below (n + 1) g'.
Proof.
  unfold counters_below. destruct g, m as [a r]. intros Hc Hn.
  prog_run; try no_overflow; eexists _, _; (split; [reflexivity|]); cbn; lia.
Qed.

Lemma processAll_defined (ms : list (Z * Rect)) :
  forall (g : Globals) (n : Z),
  counters_below n g -> n + Z.of_nat (List.length ms) <= INT_MAX ->
  exists infos g', processAll ms g = Some (infos, g').
Proof.
  induction ms as [|m ms IH]; intros g n Hc Hn.
  - eexists _, _. reflexivity.
  - cbn [List.length] in Hn.
    destruct (process_defined m g n Hc) as (info & g1 & H1 & Hc1); [lia|].
    destruct (IH g1 (n + 1) Hc1) as (infos & g' & H2); [lia|].
    exists (info :: infos), g'. cbn [processAll]. unfold bind. rewrite H1, H2. reflexivity.
Qed.

(** C7: from the initial globals, after the verdicts of any sequence of
    measurements have been applied by [updateInfo], [total_defects] is at
    most [total_parts]; and the run has a result (no [int] overflows) for
    every sequence of at most [INT_MAX] measurements. *)
Theorem total_defects_le_total_parts (minarea maxarea : Z) (ms : list (Z * Rect)) :
  (forall (infos : list AssemblyInfo) (g : Globals),
      processAll ms (globals_init minarea maxarea) = Some (infos, g) ->
      total_defects g <= total_parts g) /\
  (Z.of_nat (List.length ms) <= INT_MAX ->
   exists infos g, processAll ms (globals_init minarea maxarea) = Some (infos, g)).
Proof.
  split.
  - intros infos g Hrun. apply defects_covered_le.
    eapply processAll_defects_covered; [exact Hrun|].
    unfold defects_covered. cbn. lia.
  - intros Hlen. apply (processAll_defined ms _ 0); [|lia].
    unfold counters_below. cbn. lia.
Qed.

Lemma total_defects_le_total_parts_witness :
  exists infos g,
    processAll (repeat (35000, Rect_default) 13) (globals_init 20000 30000)
      = Some (infos, g) /\
    total_defects g <= total_parts g.
Proof.
  eexists _, _. split; [vm_compute; reflexivity|].
  eapply (proj1 (total_defects_le_total_parts 20000 30000 (repeat (35000, Rect_default) 13))).
  vm_compute; reflexivity.
Defined.

(** ** The arrival of a part and the report of its defect *)

Lemma process_defect_event (m : Z * Rect) (g g' : Globals) (info : AssemblyInfo) :
  process m g = Some (info, g') -> defect info = true ->
  prev_seen g = true /\ prev_defect g = false /\
  total_parts g' = total_parts g /\ total_defects g' = total_defects g + 1.
Proof.
  destruct g, m as [a r]. intros H Hd. prog_run; try discriminate; auto.
Qed.

(** C10: no verdict has [inc_total] and [defect] both true: [inc_total]
    comes only from a frame that finds [prev_seen] false, [defect] only
    from a frame that finds [prev_seen] true and [prev_defect] false.  And
    in every state reached from the initial globals, a frame whose verdict
    has [defect] leaves [total_parts] as it is and raises [total_defects]
    by one to at most [total_parts]: the part it reports was counted
    before. *)
Theorem verdict_never_counts_and_flags :
  (forall (g : Globals) (a : Z) (r : Rect) (info : AssemblyInfo) (g' : Globals),
      classify a r g = Some (info, g') ->
      inc_total info && defect info = false /\
      (inc_total info = true -> prev_seen g = false) /\
      (defect info = true -> prev_seen g = true /\ prev_defect g = false)) /\
  (forall (minarea maxarea : Z) (ms : list (Z * Rect)) (infos : list AssemblyInfo)
          (g : Globals) (m : Z * Rect) (info : AssemblyInfo) (g' : Globals),
      processAll ms (globals_init minarea maxarea) = Some (infos, g) ->
      process m g = Some (info, g') -> defect info = true ->
      total_parts g' = total_parts g /\
      total_defects g' = total_defects g + 1 /\
      total_defects g' <= total_parts g').
Proof.
  split.
  - intros g a r info g' H. destruct g.
    prog_run; repeat split; intros; first [reflexivity | discriminate].
  - intros minarea maxarea ms infos g m info g' Hrun Hproc Hd.
    destruct (process_defect_event _ _ _ _ Hproc Hd) as (Hs & Hp & Ht & Hdef).
    assert (Hc : defects_covered g).
    { eapply processAll_defects_covered; [exact Hrun|].
      unfold defects_covered. cbn. lia. }
    unfold defects_covered in Hc. rewrite Hs, Hp in Hc. cbn in Hc.
    repeat split; lia.
Qed.

Lemma verdict_never_counts_and_flags_witness :
  (exists info g',
     classify 35000 Rect_default (globals_init 20000 30000) = Some (info, g') /\
     inc_total info && defect info = false /\
     (inc_total info = true -> prev_seen (globals_init 20000 30000) = false)) /\
  (exists infos g info g',
     processAll (repeat (35000, Rect_default) 10) (globals_init 20000 30000)
       = Some (infos, g) /\
     process (35000, Rect_default) g = Some (info, g') /\ defect info = true /\
     total_parts g' = total_parts g /\
     total_defects g' = total_defects g + 1 /\
     total_defects g' <= total_parts g').
Proof.
  split.
  - eexists _, _. split; [reflexivity|].
    destruct (proj1 verdict_never_counts_and_flags (globals_init 20000 30000)
                35000 Rect_default _ _ eq_refl) as (H1 & H2 & _).
    split; [exact H1 | exact H2].
  - let r := eval vm_compute in
          (processAll (repeat (35000, Rect_default) 10) (globals_init 20000 30000)) in
    lazymatch r with
    | Some (?i0, ?g) =>
        exists i0, g; eexists _, _;
        split; [vm_compute; reflexivity|];
        split; [vm_compute; reflexivity|];
        split; [reflexivity|];
        eapply (proj2 verdict_never_counts_and_flags 20000 30000
                  (repeat (35000, Rect_default) 10) i0 g (35000, Rect_default));
        [vm_compute; reflexivity | vm_compute; reflexivity | reflexivity]
    end.
Defined.

(** ** Scenario B and the threshold *)

(** C1 (as amended): a part whose first frame and twelve further frames
    all have area 35000, under the bounds 20000 and 30000 and from the
    initial globals, yields [defect = true] exactly once, on the 11th
    frame of the thirteen, and leaves [total_defects] at 1. *)
Theorem scenario_B_defect_on_frame_11 (rs : list Rect) :
  List.length rs = 13%nat ->
  exists infos g,
    processAll (map (fun r => (35000, r)) rs) (globals_init 20000 30000)
      = Some (infos, g) /\
    defect_positions 1 infos = [11%nat] /\
    total_defects g = 1 /\ total_parts g = 1.
Proof.
  intros H.
  do 14 (destruct rs as [|? rs]; [discriminate H || idtac|]); [|discriminate H].
  eexists _, _. split; [vm_compute; reflexivity|]. repeat split.
Qed.

Lemma scenario_B_defect_on_frame_11_witness :
  List.length (repeat Rect_default 13) = 13%nat /\
  exists infos g,
    processAll (map (fun r => (35000, r)) (repeat Rect_default 13))
      (globals_init 20000 30000) = Some (infos, g) /\
    defect_positions 1 infos = [11%nat] /\
    total_defects g = 1 /\ total_parts g = 1.
Proof.
  split; [reflexivity|].
  apply (scenario_B_defect_on_frame_11 (repeat Rect_default 13)). reflexivity.
Defined.

(** C1 as stated fails: in that run the 11th verdict has [defect = true]
    and the 12th and 13th have [defect = false]. *)
Lemma scenario_B_not_on_frame_12 :
  option_map (fun p => map defect (fst p))
    (processAll (repeat (35000, Rect_default) 13) (globals_init 20000 30000))
  = Some [false; false; false; false; false; false; false; false; false; false;
          true; false; false].
Proof. vm_compute. reflexivity. Qed.

(** A frame whose verdict has no [defect] leaves [prev_defect] as it was
    unless it clears it; and it is not a failing frame of a part in view,
    not yet confirmed, that takes the count above 10. *)
Lemma process_quiet (m : Z * Rect) (g g' : Globals) (info : AssemblyInfo) :
  process m g = Some (info, g') -> defect info = false ->
  (prev_defect g' = true -> prev_defect g = true) /\
  (present m = true -> frame_fails g (fst m) = true -> prev_defect g = false ->
   prev_seen g = true -> 10 < frame_defect_count g + 1 -> False).
Proof.
  destruct g, m as [a r]. intros H Hd.
  prog_run; split; intros; try discriminate; try assumption; try lia.
Qed.

(** One frame, as long as the count of failing frames stays within 10:
    the verdict has no [defect], and the globals of the classifier move
    as the count of [failing_count_within] does. *)
Lemma process_within_ten (m : Z * Rect) (g g' : Globals) (info : AssemblyInfo) :
  process m g = Some (info, g') ->
  (present m = false ->
   defect info = false /\ prev_seen g' = false /\
   frame_ok_count g' = 0 /\ frame_defect_count g' = 0) /\
  (present m = true -> frame_fails g (fst m) = true ->
   frame_defect_count g + 1 <= 10 ->
   defect info = false /\ prev_seen g' = true /\
   frame_ok_count g' = frame_ok_count g /\
   frame_defect_count g' = frame_defect_count g + 1) /\
  (present m = true -> frame_fails g (fst m) = false ->
   defect info = false /\ prev_seen g' = true /\
   frame_ok_count g' = frame_ok_count g + 1 /\
   frame_defect_count g' =
     (if prev_seen g && (frame_ok_count g + 1 >? 10) then 0
      else frame_defect_count g)).
Proof.
  destruct g, m as [a r]. intros H.
  prog_run; repeat split; intros; try discriminate; try reflexivity; try lia.
Qed.

Lemma failing_count_within_bounds (limit : Z) (g g1 : Globals) (ms : list (Z * Rect)) :
  min_area g1 = min_area g -> max_area g1 = max_area g ->
  forall (seen : bool) (ok d : Z),
  failing_count_within limit g1 seen ok d ms = failing_count_within limit g seen ok d ms.
Proof.
  intros Hmn Hmx. induction ms as [|m ms IH]; intros seen ok d; cbn; [reflexivity|].
  unfold frame_fails. rewrite Hmn, Hmx, !IH. reflexivity.
Qed.

(** C2 (as amended): over any sequence of measurements, from any state,
    no verdict has [defect = true] as long as the number of failing frames
    of the part in view, counted since the count was last cleared, stays
    at or below 10.  The count is cleared by a frame without a part and by
    a passing frame of a part already in view that brings the number of
    passing frames above 10, not by a single passing frame: the failing
    frames need not be consecutive. *)
Theorem no_defect_while_failing_count_within_ten (ms : list (Z * Rect)) :
  forall (g g' : Globals) (infos : list AssemblyInfo),
  failing_count_within 10 g (prev_seen g) (frame_ok_count g) (frame_defect_count g) ms
    = true ->
  processAll ms g = Some (infos, g') ->
  Forall (fun i => defect i = false) infos.
Proof.
  induction ms as [|m ms IH]; intros g g' infos Hw Hrun.
  - apply processAll_nil in Hrun. destruct Hrun; subst. constructor.
  - apply processAll_cons in Hrun. destruct Hrun as (info & g1 & infos' & H1 & H2 & ->).
    destruct (process_bounds _ _ _ _ H1) as [Hmn Hmx].
    destruct (process_within_ten _ _ _ _ H1) as (Habs & Hfail & Hpass).
    cbn [failing_count_within] in Hw.
    destruct (present m) eqn:Hp.
    + destruct (frame_fails g (fst m)) eqn:Hf.
      * apply andb_true_iff in Hw. destruct Hw as [Hle Hw]. apply Z.leb_le in Hle.
        destruct (Hfail eq_refl eq_refl Hle) as (Hd & Hs & Hok & Hdc).
        constructor; [exact Hd|]. apply (IH g1 g'); [|exact H2].
        rewrite (failing_count_within_bounds 10 g g1 ms Hmn Hmx), Hs, Hok, Hdc.
        exact Hw.
      * destruct (Hpass eq_refl eq_refl) as (Hd & Hs & Hok & Hdc).
        constructor; [exact Hd|]. apply (IH g1 g'); [|exact H2].
        rewrite (failing_count_within_bounds 10 g g1 ms Hmn Hmx), Hs, Hok, Hdc.
        exact Hw.
    + destruct (Habs eq_refl) as (Hd & Hs & Hok & Hdc).
      constructor; [exact Hd|]. apply (IH g1 g'); [|exact H2].
      rewrite (failing_count_within_bounds 10 g g1 ms Hmn Hmx), Hs, Hok, Hdc.
      exact Hw.
Qed.

Lemma no_defect_while_failing_count_within_ten_witness :
  exists infos g',
    failing_count_within 10 (globals_init 20000 30000) false 0 0
      (repeat (35000, Rect_default) 6 ++ [(0, Rect_default)]
       ++ repeat (35000, Rect_default) 6 ++ repeat (25000, Rect_default) 12
       ++ repeat (35000, Rect_default) 6) = true /\
    processAll
      (repeat (35000, Rect_default) 6 ++ [(0, Rect_default)]
       ++ repeat (35000, Rect_default) 6 ++ repeat (25000, Rect_default) 12
       ++ repeat (35000, Rect_default) 6)
      (globals_init 20000 30000) = Some (infos, g') /\
    Forall (fun i => defect i = false) infos.
Proof.
  eexists _, _.
  split; [vm_compute; reflexivity|].
  split; [vm_compute; reflexivity|].
  eapply (no_defect_while_failing_count_within_ten
            (repeat (35000, Rect_default) 6 ++ [(0, Rect_default)]
             ++ repeat (35000, Rect_default) 6 ++ repeat (25000, Rect_default) 12
             ++ repeat (35000, Rect_default) 6)
            (globals_init 20000 30000)).
  - vm_compute; reflexivity.
  - vm_compute; reflexivity.
Defined.

(** The bound of 10 is the exact one: in a state where no defect is
    confirmed and no part in view means a count below 10, a sequence over
    which the count passes 10 has a verdict with [defect = true]. *)
Lemma defect_when_failing_count_passes_ten (ms : list (Z * Rect)) :
  forall (g g' : Globals) (infos : list AssemblyInfo),
  prev_defect g = false ->
  (prev_seen g = false -> frame_defect_count g < 10) ->
  failing_count_within 10 g (prev_seen g) (frame_ok_count g) (frame_defect_count g) ms
    = false ->
  processAll ms g = Some (infos, g') ->
  Exists (fun i => defect i = true) infos.
Proof.
  induction ms as [|m ms IH]; intros g g' infos Hpd Hc Hw Hrun.
  - cbn in Hw. discriminate.
  - apply processAll_cons in Hrun. destruct Hrun as (info & g1 & infos' & H1 & H2 & ->).
    destruct (defect info) eqn:Hdi; [apply Exists_cons_hd; exact Hdi|].
    apply Exists_cons_tl.
    destruct (process_bounds _ _ _ _ H1) as [Hmn Hmx].
    destruct (process_within_ten _ _ _ _ H1) as (Habs & Hfail & Hpass).
    assert (Hpd1 : prev_defect g1 = false).
    { destruct (prev_defect g1) eqn:E; [|reflexivity].
      destruct (process_quiet _ _ _ _ H1 Hdi) as [Hq _].
      specialize (Hq E). congruence. }
    cbn [failing_count_within] in Hw.
    destruct (present m) eqn:Hp.
    + destruct (frame_fails g (fst m)) eqn:Hf.
      * destruct (Z.leb_spec (frame_defect_count g + 1) 10) as [Hle|Hgt].
        -- destruct (Hfail eq_refl eq_refl Hle) as (_ & Hs & Hok & Hdc).
           apply (IH g1 g'); [exact Hpd1 | congruence | | exact H2].
           rewrite (failing_count_within_bounds 10 g g1 ms Hmn Hmx), Hs, Hok, Hdc.
           exact Hw.
        -- exfalso.
           destruct (process_quiet _ _ _ _ H1 Hdi) as [_ Hq].
           apply (Hq Hp Hf Hpd); [|lia].
           destruct (prev_seen g) eqn:Hs; [reflexivity|]. specialize (Hc eq_refl). lia.
      * destruct (Hpass eq_refl eq_refl) as (_ & Hs & Hok & Hdc).
        apply (IH g1 g'); [exact Hpd1 | congruence | | exact H2].
        rewrite (failing_count_within_bounds 10 g g1 ms Hmn Hmx), Hs, Hok, Hdc.
        exact Hw.
    + destruct (Habs eq_refl) as (_ & Hs & Hok & Hdc).
      apply (IH g1 g'); [exact Hpd1 | rewrite Hdc; lia | | exact H2].
      rewrite (failing_count_within_bounds 10 g g1 ms Hmn Hmx), Hs, Hok, Hdc.
      exact Hw.
Qed.

(** C2 as stated fails: a failing first frame, one passing frame and ten
    more failing frames never fail more than 10 times in a row, yet the
    12th verdict has [defect = true]. *)
Lemma defect_with_failing_runs_of_ten :
  forallb present
    ((35000, Rect_default) :: (25000, Rect_default) :: repeat (35000, Rect_default) 10)
    = true /\
  longest_failing_run (globals_init 20000 30000) 0 0
    ((35000, Rect_default) :: (25000, Rect_default) :: repeat (35000, Rect_default) 10)
    = 10%nat /\
  option_map (fun p => defect_positions 1 (fst p))
    (processAll
       ((35000, Rect_default) :: (25000, Rect_default) :: repeat (35000, Rect_default) 10)
       (globals_init 20000 30000))
    = Some [12%nat].
Proof. repeat split; vm_compute; reflexivity. Qed.

(** ** The other scenarios of the specification *)

(** Scenario A: fifteen passing frames of one part. *)
Example scenario_A :
  option_map (fun p => (map inc_total (fst p), defect_positions 1 (fst p),
                        total_parts (snd p), total_defects (snd p)))
    (processAll (repeat (25000, Rect_default) 15) (globals_init 20000 30000))
  = Some (true :: repeat false 14, [], 1, 0).
Proof. vm_compute. reflexivity. Qed.

(** Scenario C: five failing frames, twelve passing frames, twelve failing
    frames.  The passing run clears the defect counter at its eleventh
    frame; the second failing run is reported at its eleventh frame. *)
Example scenario_C :
  option_map (fun p => (defect_positions 1 (fst p), total_defects (snd p)))
    (processAll (repeat (35000, Rect_default) 5 ++ repeat (25000, Rect_default) 12
                   ++ repeat (35000, Rect_default) 12)
       (globals_init 20000 30000))
  = Some ([28%nat], 1).
Proof. vm_compute. reflexivity. Qed.

(** Scenario D: the part leaves after its defect was confirmed. *)
Example scenario_D :
  option_map (fun p => (map show (fst p), prev_seen (snd p), prev_defect (snd p)))
    (processAll (repeat (35000, Rect_default) 11 ++ [(0, Rect_default)])
       (globals_init 20000 30000))
  = Some (repeat false 10 ++ [true; false], false, false).
Proof. vm_compute. reflexivity. Qed.

(** ** The frame queue *)

(** C8 (as amended): [addImage] on a queue that holds a frame changes
    nothing (the new frame is neither queued nor written over the stored
    one), [addImage] on an empty queue stores the frame, and in both cases
    it returns no value; [nextImageAvailable] on an empty queue returns at
    once with an empty [Mat] and changes nothing. *)
Theorem frame_queue_drop_policy (g : Globals) (img : Mat) :
  (nextImage g <> [] -> addImage img g = Some (tt, g)) /\
  (nextImage g = [] -> addImage img g = Some (tt, set_nextImage [img] g)) /\
  (nextImage g = [] ->
   nextImageAvailable g = Some (Mat_default, g) /\ Mat_empty Mat_default = true).
Proof.
  destruct g as [fr q]. split; [|split]; cbn [nextImage]; intros H.
  - destruct q; [congruence|]. reflexivity.
  - subst q. reflexivity.
  - subst q. split; reflexivity.
Qed.

Lemma frame_queue_drop_policy_witness :
  addImage (mkMat 1 1 [7]) (set_nextImage [mkMat 1 1 [5]] (globals_init 20000 30000))
    = Some (tt, set_nextImage [mkMat 1 1 [5]] (globals_init 20000 30000)) /\
  addImage (mkMat 1 1 [7]) (globals_init 20000 30000)
    = Some (tt, set_nextImage [mkMat 1 1 [7]] (globals_init 20000 30000)) /\
  nextImageAvailable (globals_init 20000 30000)
    = Some (Mat_default, globals_init 20000 30000).
Proof.
  split; [|split].
  - apply (proj1 (frame_queue_drop_policy
                    (set_nextImage [mkMat 1 1 [5]] (globals_init 20000 30000))
                    (mkMat 1 1 [7]))).
    discriminate.
  - apply (proj1 (proj2 (frame_queue_drop_policy (globals_init 20000 30000)
                           (mkMat 1 1 [7])))).
    reflexivity.
  - apply (proj2 (proj2 (frame_queue_drop_policy (globals_init 20000 30000)
                           (mkMat 1 1 [7])))).
    reflexivity.
Defined.

(** C8 as stated fails: [addImage] is [void].  On an occupied queue and on
    an empty one it returns the same (no) value, so its result does not
    tell a stored frame from a dropped one. *)
Lemma addImage_returns_no_flag :
  result (addImage (mkMat 1 1 [7])
            (set_nextImage [mkMat 1 1 [5]] (globals_init 20000 30000)))
    = Some tt /\
  result (addImage (mkMat 1 1 [7]) (globals_init 20000 30000)) = Some tt.
Proof. split; reflexivity. Qed.

(** The queue never holds more than one frame. *)
Lemma addImage_depth (g g' : Globals) (img : Mat) :
  addImage img g = Some (tt, g') ->
  (List.length (nextImage g) <= 1)%nat -> (List.length (nextImage g') <= 1)%nat.
Proof.
  destruct g as [fr q]. intros H Hq. prog_run; cbn in *; lia.
Qed.

(** ** The worker's turn *)

(** What one turn of [frameRunner] does: with an empty queue, or an empty
    frame at its front, nothing but the dequeue; otherwise the frame at
    the front is removed, and the measurement that is classified is taken
    from the global [frame], whatever the removed frame holds. *)
Lemma frameRunner_iter_cases (contourRects : Mat -> list Rect) (g g' : Globals) :
  frameRunner_iter contourRects g = Some (tt, g') ->
  (nextImage g = [] /\ g' = g) \/
  (exists next rest, nextImage g = next :: rest /\
     ((Mat_empty next = true /\ g' = set_nextImage rest g) \/
      (Mat_empty next = false /\
       exists m info,
         largest (cols (frame g)) (contourRects (frame g)) (0, Rect_default) = Some m /\
         process m (set_nextImage rest g) = Some (info, g')))).
Proof.
  unfold frameRunner_iter, nextImageAvailable, measure.
  destruct g as [fr q]. destruct q as [|next rest].
  - cbv [bind gets modify ret when nextImage]. cbn. intros H. inversion H. auto.
  - intros H. right. exists next, rest. split; [reflexivity|].
    cbv [bind gets modify ret when nextImage] in H.
    destruct (Mat_empty next) eqn:E; cbn [negb] in H.
    + left. inversion H. auto.
    + right. split; [reflexivity|].
      cbv [lift frame set_nextImage] in H. cbn [frame cols] in *.
      destruct (largest (cols fr) (contourRects fr) (0, Rect_default)) as [m|]; [|discriminate].
      exists m.
      match type of H with
      | match process m ?g1 with _ => _ end = _ =>
          destruct (process m g1) as [[info g2]|] eqn:Ep; [|discriminate]
      end.
      exists info. inversion H; subst. split; [reflexivity|exact Ep].
Qed.

(** The outcome of a worker's turn does not depend on what the frame it
    removes from the queue holds, as long as that frame is not empty. *)
Lemma frameRunner_iter_ignores_dequeued
    (contourRects : Mat -> list Rect) (g : Globals) (n1 n2 : Mat) (rest : list Mat) :
  Mat_empty n1 = false -> Mat_empty n2 = false ->
  frameRunner_iter contourRects (set_nextImage (n1 :: rest) g)
  = frameRunner_iter contourRects (set_nextImage (n2 :: rest) g).
Proof.
  intros H1 H2. destruct g.
  cbv [frameRunner_iter nextImageAvailable bind gets modify ret when nextImage
       set_nextImage].
  rewrite H1, H2. reflexivity.
Qed.

(** C5 fails on the code: the capture loop grabs a 1920 by 1080 frame
    whose contour is 150 by 150, resizes and queues it, then grabs one
    whose contour is 200 by 200, which [addImage] drops because the queue
    is occupied, but which is now the global [frame].  The worker's turn
    removes the first frame from the queue and records area 40000, the
    measurement of the second frame; the frame it removed measures
    22500. *)
Theorem worker_measures_global_frame :
  let contourRects := fun m : Mat => map (fun w => mkRect 1 1 w w) (data m) in
  let resize := fun m : Mat => mkMat 540 960 (data m) in
  let grabbedA := mkMat 1080 1920 [150] in
  let grabbedB := mkMat 1080 1920 [200] in
  option_map (fun p => (nextImage (snd p), frame (snd p)))
    (schedule contourRects resize [Capture grabbedA false; Capture grabbedB false]
       (globals_init 20000 30000))
    = Some ([resize grabbedA], resize grabbedB) /\
  option_map (fun p => (nextImage (snd p), area (currentInfo (snd p))))
    (schedule contourRects resize
       [Capture grabbedA false; Capture grabbedB false; Worker]
       (globals_init 20000 30000))
    = Some ([], 40000) /\
  option_map fst
    (largest (cols (resize grabbedA)) (contourRects (resize grabbedA)) (0, Rect_default))
    = Some 22500 /\
  option_map fst
    (largest (cols (resize grabbedB)) (contourRects (resize grabbedB)) (0, Rect_default))
    = Some 40000.
Proof. repeat split; vm_compute; reflexivity. Qed.

(** ** Telemetry *)

Lemma messageRunner_iter_result (g : Globals) :
  messageRunner_iter g
  = Some (tt,
          set_syslog_out
            ((syslog_out g ++ [("MQTT message published to topic: " ++ topic)%string])
               ++ [json_Defect (if defect (currentInfo g) then "1" else "0")])
            (set_mqtt_out
               (mqtt_out g
                  ++ [(topic, json_Defect (if defect (currentInfo g) then "1" else "0"))])
               g)).
Proof.
  destruct g. destruct currentInfo0 as [it d ar sh rc]. destruct d; vm_compute; reflexivity.
Qed.

(** C4 (as amended): a turn of the publisher hands [mqtt_publish] the
    topic and the text [{"Defect": "1"}] when [currentInfo.defect] is true
    at that moment and [{"Defect": "0"}] when it is false, and changes no
    other global but the log. *)
Theorem published_payload (g : Globals) :
  exists g',
    messageRunner_iter g = Some (tt, g') /\
    mqtt_out g' =
      mqtt_out g ++ [(topic, json_Defect (if defect (currentInfo g) then "1" else "0"))] /\
    currentInfo g' = currentInfo g /\
    total_parts g' = total_parts g /\ total_defects g' = total_defects g.
Proof.
  eexists. split; [apply messageRunner_iter_result|].
  destruct g. repeat split.
Qed.

(** C4 as stated fails: after the eleven failing frames of Scenario B
    [currentInfo.defect] is true and the publisher's payload is
    [{"Defect": "1"}], which is not [{"Defect": "true"}]. *)
Lemma payload_is_not_true :
  option_map (fun p => (defect (currentInfo (snd p)), mqtt_out (snd p)))
    (bind (processAll (repeat (35000, Rect_default) 11)) (fun _ => messageRunner_iter)
       (globals_init 20000 30000))
    = Some (true, [(topic, json_Defect "1")]) /\
  json_Defect "1" <> json_Defect "true".
Proof. split; [vm_compute; reflexivity | vm_compute; discriminate]. Qed.

(** ** Every schedule of the three loops *)

Lemma process_frame_fields (m : Z * Rect) (g g' : Globals) (info : AssemblyInfo) :
  process m g = Some (info, g') ->
  mqtt_out g' = mqtt_out g /\ nextImage g' = nextImage g /\ frame g' = frame g.
Proof.
  destruct g, m as [a r]. intros H. prog_run; repeat split.
Qed.

Section Schedules.

Variable contourRects : Mat -> list Rect.
Variable resize : Mat -> Mat.

Lemma frameRunner_iter_kept (g g' : Globals) :
  frameRunner_iter contourRects g = Some (tt, g') -> kept g -> kept g'.
Proof.
  unfold kept. intros H (Hd & Hp & Hq).
  destruct (frameRunner_iter_cases _ _ _ H)
    as [[_ ->] | (next & rest & Hn & [[_ ->] | (_ & m & info & _ & Hproc)])].
  - repeat split; assumption.
  - destruct g. cbn in *. subst. repeat split; try assumption. cbn in *. lia.
  - destruct (process_frame_fields _ _ _ _ Hproc) as (Hm & Hn' & _).
    repeat split.
    + apply (process_defects_covered _ _ _ _ Hproc). destruct g. exact Hd.
    + rewrite Hm. destruct g. exact Hp.
    + rewrite Hn'. destruct g. cbn in *. subst. cbn in *. lia.
Qed.

Lemma messageRunner_iter_kept (g g' : Globals) :
  messageRunner_iter g = Some (tt, g') -> kept g -> kept g'.
Proof.
  unfold kept. rewrite messageRunner_iter_result. intros H (Hd & Hp & Hq).
  inversion H; subst g'. clear H. destruct g. cbn [mqtt_out set_mqtt_out
    set_syslog_out nextImage currentInfo] in *.
  split; [|split].
  - exact Hd.
  - apply Forall_app. split; [assumption|].
    constructor; [|constructor]. unfold published_ok.
    destruct (defect currentInfo0); auto.
  - exact Hq.
Qed.

Lemma main_iter_kept (grabbed : Mat) (stop : bool) (g g' : Globals) (b : bool) :
  main_iter resize grabbed stop g = Some (b, g') -> kept g -> kept g'.
Proof.
  unfold kept, defects_covered. destruct g. intros H (Hd & Hp & Hq).
  prog_run; cbn in *; repeat split; first [assumption | lia].
Qed.

Lemma turn_kept (t : Turn) (g g' : Globals) :
  turn contourRects resize t g = Some (tt, g') -> kept g -> kept g'.
Proof.
  destruct t as [grabbed stop| |]; cbn [turn]; unfold bind, gets, when, ret.
  - destruct (main_iter resize grabbed stop g) as [[b g1]|] eqn:E; [|discriminate].
    intros H. inversion H; subst. eauto using main_iter_kept.
  - destruct (keepRunning g).
    + destruct (frameRunner_iter contourRects g) as [[[] g1]|] eqn:E; [|discriminate].
      intros H. inversion H; subst. eauto using frameRunner_iter_kept.
    + intros H. inversion H; subst. auto.
  - destruct (keepRunning g).
    + destruct (messageRunner_iter g) as [[[] g1]|] eqn:E; [|discriminate].
      intros H. inversion H; subst. eauto using messageRunner_iter_kept.
    + intros H. inversion H; subst. auto.
Qed.

(** In every state the program reaches, under any interleaving of the
    three loops: [total_defects <= total_parts], every published payload
    is one of the two texts, and the queue holds at most one frame. *)
Lemma schedule_kept (ts : list Turn) :
  forall (g g' : Globals),
  schedule contourRects resize ts g = Some (tt, g') -> kept g ->
  total_defects g' <= total_parts g' /\ Forall published_ok (mqtt_out g') /\
  (List.length (nextImage g') <= 1)%nat.
Proof.
  induction ts as [|t ts IH]; intros g g' H K.
  - cbn in H. unfold ret in H. inversion H; subst.
    destruct K as (Hd & Hp & Hq). auto using defects_covered_le.
  - cbn [schedule] in H. unfold bind in H.
    destruct (turn contourRects resize t g) as [[[] g1]|] eqn:E; [|discriminate].
    apply (IH g1 g' H). eapply turn_kept; eauto.
Qed.

Lemma schedule_from_init (minarea maxarea : Z) (ts : list Turn) (g' : Globals) :
  schedule contourRects resize ts (globals_init minarea maxarea) = Some (tt, g') ->
  total_defects g' <= total_parts g' /\ Forall published_ok (mqtt_out g') /\
  (List.length (nextImage g') <= 1)%nat.
Proof.
  intros H. apply (schedule_kept ts _ _ H).
  unfold kept, defects_covered. repeat split; cbn; try lia. constructor.
Qed.

End Schedules.

(** * More of the code *)

(** ** The choice of the largest contour *)

Lemma consider_cases (img_cols : Z) (acc acc' : Z * Rect) (r : Rect) :
  consider img_cols acc r = Some acc' ->
  INT_MIN <= width r * height r <= INT_MAX /\
  ((acc' = acc /\ (qualifies img_cols r = true -> width r * height r <= fst acc)) \/
   (acc' = (width r * height r, r) /\ fst acc < width r * height r /\
    qualifies img_cols r = true)).
Proof.
  unfold consider, qualifies, int_mul, int_add, int_checked.
  destruct (in_int (width r * height r)) eqn:Em; [|discriminate].
  apply in_int_range in Em. intros H. split; [exact Em|].
  destruct (Z.gtb_spec (width r * height r) (fst acc)).
  - destruct (Z.gtb_spec (x r) 0).
    + destruct (in_int (x r + width r)) eqn:Ea; [|discriminate].
      destruct (Z.ltb_spec (x r + width r) img_cols);
        destruct (Z.gtb_spec (width r) 30); cbn in H; inversion H; subst;
        first [ right; repeat split; lia
              | left; split; [reflexivity|]; cbn; intros; discriminate ].
    + inversion H; subst. left. split; [reflexivity|]. cbn. intros; discriminate.
  - inversion H; subst. left. split; [reflexivity|]. intros _. lia.
Qed.

Lemma largest_cases (img_cols : Z) (rs : list Rect) :
  forall (acc : Z * Rect) (a : Z) (r : Rect),
  largest img_cols rs acc = Some (a, r) ->
  fst acc <= a /\
  (forall r', In r' rs -> qualifies img_cols r' = true -> width r' * height r' <= a) /\
  ((a, r) = acc \/
   (In r rs /\ a = width r * height r /\ qualifies img_cols r = true /\ fst acc < a)).
Proof.
  induction rs as [|r0 rs IH]; intros acc a r H.
  - cbn in H. inversion H; subst. cbn. repeat split; [lia | tauto | auto].
  - cbn [largest] in H.
    destruct (consider img_cols acc r0) as [acc1|] eqn:Ec; [|discriminate].
    destruct (consider_cases _ _ _ _ Ec) as [_ Hc].
    destruct (IH acc1 a r H) as (Hle & Hmax & Hsel).
    destruct Hc as [[-> Hq] | (-> & Hlt & Hq)]; cbn [fst] in *.
    + split; [exact Hle|]. split.
      * intros r' [<-|Hin] Hq'; [specialize (Hq Hq'); lia | auto].
      * destruct Hsel as [Hs | (Hin & Ha & Hq' & Hlt)]; [left; exact Hs|].
        right. repeat split; auto. right; exact Hin.
    + split; [lia|]. split.
      * intros r' [<-|Hin] Hq'; [lia | auto].
      * right. destruct Hsel as [Hs | (Hin & Ha & Hq' & Hlt')].
        -- inversion Hs; subst. repeat split; auto. left; reflexivity.
        -- repeat split; auto; [right; exact Hin | lia].
Qed.

(** X1: the contour loop yields either area 0 with the default rectangle
    (no object), or a positive area that is the width times the height of
    one of the bounding rectangles, which lies right of the left edge
    ([x > 0]), ends left of the right edge ([x + width < cols]) and is
    wider than 30. *)
Theorem largest_selects_qualifying
    (img_cols : Z) (rs : list Rect) (a : Z) (r : Rect) :
  largest img_cols rs (0, Rect_default) = Some (a, r) ->
  (a = 0 /\ r = Rect_default) \/
  (0 < a /\ In r rs /\ a = width r * height r /\
   0 < x r /\ x r + width r < img_cols /\ 30 < width r).
Proof.
  intros H. destruct (largest_cases _ _ _ _ _ H) as (_ & _ & [Hs | (Hin & Ha & Hq & Hlt)]).
  - left. inversion Hs; auto.
  - right. unfold qualifies in Hq. rewrite !andb_true_iff in Hq.
    destruct Hq as [[Hx Hr] Hw].
    apply Z.gtb_lt in Hx, Hw. apply Z.ltb_lt in Hr. cbn [fst] in Hlt. auto 10.
Qed.

Lemma largest_selects_qualifying_witness :
  exists a r,
    largest 960 [mkRect 0 5 400 400; mkRect 10 5 150 150; mkRect 20 5 20 900]
      (0, Rect_default) = Some (a, r) /\
    ((a = 0 /\ r = Rect_default) \/
     (0 < a /\ In r [mkRect 0 5 400 400; mkRect 10 5 150 150; mkRect 20 5 20 900] /\
      a = width r * height r /\ 0 < x r /\ x r + width r < 960 /\ 30 < width r)).
Proof.
  eexists _, _. split; [vm_compute; reflexivity|].
  apply (largest_selects_qualifying 960
           [mkRect 0 5 400 400; mkRect 10 5 150 150; mkRect 20 5 20 900]).
  vm_compute; reflexivity.
Defined.

(** X2: no bounding rectangle that passes the three position tests has a
    larger area than the one the contour loop reports. *)
Theorem largest_is_maximal
    (img_cols : Z) (rs : list Rect) (a : Z) (r r' : Rect) :
  largest img_cols rs (0, Rect_default) = Some (a, r) ->
  In r' rs -> qualifies img_cols r' = true ->
  width r' * height r' <= a.
Proof.
  intros H Hin Hq. destruct (largest_cases _ _ _ _ _ H) as (_ & Hmax & _). auto.
Qed.

Lemma largest_is_maximal_witness :
  exists a r,
    largest 960 [mkRect 10 5 150 150; mkRect 30 5 200 200] (0, Rect_default)
      = Some (a, r) /\
    In (mkRect 10 5 150 150) [mkRect 10 5 150 150; mkRect 30 5 200 200] /\
    qualifies 960 (mkRect 10 5 150 150) = true /\
    width (mkRect 10 5 150 150) * height (mkRect 10 5 150 150) <= a.
Proof.
  eexists _, _. split; [vm_compute; reflexivity|].
  split; [left; reflexivity|]. split; [reflexivity|].
  eapply (largest_is_maximal 960 [mkRect 10 5 150 150; mkRect 30 5 200 200] _ _
            (mkRect 10 5 150 150)).
  - vm_compute; reflexivity.
  - left; reflexivity.
  - reflexivity.
Defined.

Lemma largest_defined (img_cols W H : Z) (rs : list Rect) :
  0 <= W -> 0 <= H -> W * H <= INT_MAX -> W <= INT_MAX ->
  Forall (fun r => 0 <= x r /\ 0 <= width r /\ x r + width r <= W /\
                   0 <= height r <= H) rs ->
  forall acc : Z * Rect, 0 <= fst acc <= W * H ->
  exists a r, largest img_cols rs acc = Some (a, r) /\ 0 <= a <= W * H.
Proof.
  intros HW HH HWH HWmax Hall. induction Hall as [|r0 rs Hr0 _ IH]; intros acc Hacc.
  - destruct acc as [a r]. exists a, r. split; [reflexivity|exact Hacc].
  - destruct Hr0 as (Hx & Hw & Hxw & Hh).
    assert (Hprod : 0 <= width r0 * height r0 <= W * H) by nia.
    assert (Em : in_int (width r0 * height r0) = true)
      by (apply in_int_range; unfold INT_MIN; lia).
    assert (Ea : in_int (x r0 + width r0) = true)
      by (apply in_int_range; unfold INT_MIN; lia).
    cbn [largest]. unfold consider, int_mul, int_add, int_checked. rewrite Em.
    destruct (width r0 * height r0 >? fst acc); [|apply IH; exact Hacc].
    destruct (x r0 >? 0); [|apply IH; exact Hacc].
    rewrite Ea.
    destruct ((x r0 + width r0 <? img_cols) && (width r0 >? 30));
      apply IH; [exact Hprod | exact Hacc].
Qed.

(** X3: when every bounding rectangle lies in a 960 by 540 image, the
    contour loop overflows no [int] and the area it reports is between 0
    and 518400. *)
Theorem largest_in_resized_frame (img_cols : Z) (rs : list Rect) :
  Forall (fun r => 0 <= x r /\ 0 <= width r /\ x r + width r <= 960 /\
                   0 <= height r <= 540) rs ->
  exists a r,
    largest img_cols rs (0, Rect_default) = Some (a, r) /\ 0 <= a <= 518400.
Proof.
  intros Hall.
  apply (largest_defined img_cols 960 540 rs); try (unfold INT_MAX; lia); [exact Hall|].
  cbn. lia.
Qed.

Lemma largest_in_resized_frame_witness :
  exists a r,
    largest 960 [mkRect 10 5 150 150; mkRect 30 5 200 200] (0, Rect_default)
      = Some (a, r) /\ 0 <= a <= 518400.
Proof.
  apply (largest_in_resized_frame 960 [mkRect 10 5 150 150; mkRect 30 5 200 200]).
  repeat constructor; cbn; lia.
Defined.

(** ** The queue as a hand-over *)

(** X4: [addImage] followed by [nextImageAvailable] hands over the frame
    that was added when the queue was empty, and leaves the globals as
    they were; when the queue held a frame, it hands over that older frame
    and the added one is lost. *)
Theorem addImage_then_nextImageAvailable (g : Globals) (img : Mat) :
  (nextImage g = [] ->
   bind (addImage img) (fun _ => nextImageAvailable) g = Some (img, g)) /\
  (forall older rest, nextImage g = older :: rest ->
   bind (addImage img) (fun _ => nextImageAvailable) g
     = Some (older, set_nextImage rest g)).
Proof.
  destruct g as [fr q]. cbn [nextImage]. split.
  - intros ->. reflexivity.
  - intros older rest ->. reflexivity.
Qed.

Lemma addImage_then_nextImageAvailable_witness :
  bind (addImage (mkMat 1 1 [7])) (fun _ => nextImageAvailable)
    (globals_init 20000 30000)
    = Some (mkMat 1 1 [7], globals_init 20000 30000) /\
  bind (addImage (mkMat 1 1 [7])) (fun _ => nextImageAvailable)
    (set_nextImage [mkMat 1 1 [5]] (globals_init 20000 30000))
    = Some (mkMat 1 1 [5], globals_init 20000 30000).
Proof.
  split.
  - apply (proj1 (addImage_then_nextImageAvailable (globals_init 20000 30000)
                    (mkMat 1 1 [7]))).
    reflexivity.
  - apply (proj2 (addImage_then_nextImageAvailable
                    (set_nextImage [mkMat 1 1 [5]] (globals_init 20000 30000))
                    (mkMat 1 1 [7])) (mkMat 1 1 [5]) []).
    reflexivity.
Defined.

(** ** What the totals count *)

Lemma process_totals (m : Z * Rect) (g g' : Globals) (info : AssemblyInfo) :
  process m g = Some (info, g') ->
  total_parts g' = total_parts g + (if inc_total info then 1 else 0) /\
  total_defects g' = total_defects g + (if defect info then 1 else 0) /\
  inc_total info = present m && negb (prev_seen g) /\
  prev_seen g' = present m.
Proof.
  destruct g, m as [a r]. intros H.
  prog_run; repeat split; first [reflexivity | lia].
Qed.

(** X5: after any sequence of measurements, [total_parts] has grown by the
    number of verdicts with [inc_total] and [total_defects] by the number
    of verdicts with [defect]. *)
Theorem totals_count_verdicts (ms : list (Z * Rect)) :
  forall (g g' : Globals) (infos : list AssemblyInfo),
  processAll ms g = Some (infos, g') ->
  total_parts g' = total_parts g + count_flag inc_total infos /\
  total_defects g' = total_defects g + count_flag defect infos.
Proof.
  induction ms as [|m ms IH]; intros g g' infos Hrun.
  - apply processAll_nil in Hrun. destruct Hrun; subst. cbn. lia.
  - apply processAll_cons in Hrun. destruct Hrun as (info & g1 & infos' & H1 & H2 & ->).
    destruct (process_totals _ _ _ _ H1) as (Hp & Hd & _).
    destruct (IH _ _ _ H2) as (Hp' & Hd'). cbn [count_flag]. lia.
Qed.

Lemma totals_count_verdicts_witness :
  exists infos g',
    processAll (repeat (35000, Rect_default) 13) (globals_init 20000 30000)
      = Some (infos, g') /\
    total_parts g' = total_parts (globals_init 20000 30000) + count_flag inc_total infos /\
    total_defects g' = total_defects (globals_init 20000 30000) + count_flag defect infos.
Proof.
  eexists _, _. split; [vm_compute; reflexivity|].
  eapply (totals_count_verdicts (repeat (35000, Rect_default) 13)
            (globals_init 20000 30000)).
  vm_compute; reflexivity.
Defined.

(** X6: [total_parts] counts arrivals: it grows by one for every frame
    with a part that follows a frame without one (or starts the sequence
    when no part was in view), whatever the areas are. *)
Theorem total_parts_counts_arrivals (ms : list (Z * Rect)) :
  forall (g g' : Globals) (infos : list AssemblyInfo),
  processAll ms g = Some (infos, g') ->
  total_parts g' = total_parts g + count_arrivals (prev_seen g) ms.
Proof.
  induction ms as [|m ms IH]; intros g g' infos Hrun.
  - apply processAll_nil in Hrun. destruct Hrun; subst. cbn. lia.
  - apply processAll_cons in Hrun. destruct Hrun as (info & g1 & infos' & H1 & H2 & ->).
    destruct (process_totals _ _ _ _ H1) as (Hp & _ & Hi & Hs).
    rewrite (IH _ _ _ H2), Hp, Hi, Hs. cbn [count_arrivals].
    destruct (present m), (prev_seen g); cbn [andb negb]; lia.
Qed.

Lemma total_parts_counts_arrivals_witness :
  exists infos g',
    processAll [(25000, Rect_default); (0, Rect_default); (35000, Rect_default);
                (26000, Rect_default)] (globals_init 20000 30000)
      = Some (infos, g') /\
    total_parts g' = 2.
Proof.
  eexists _, _. split; [vm_compute; reflexivity|].
  eapply (total_parts_counts_arrivals
            [(25000, Rect_default); (0, Rect_default); (35000, Rect_default);
             (26000, Rect_default)] (globals_init 20000 30000)).
  vm_compute; reflexivity.
Defined.

(** ** The two signals of a defect *)

Lemma process_currentInfo (m : Z * Rect) (g g' : Globals) (info : AssemblyInfo) :
  process m g = Some (info, g') ->
  defect (currentInfo g') = defect info /\ show (currentInfo g') = show info /\
  area (currentInfo g') = fst m /\ rect (currentInfo g') = snd m /\
  inc_total (currentInfo g') = inc_total (currentInfo g) /\
  show info = prev_defect g'.
Proof.
  destruct g, m as [a r]. intros H. prog_run; repeat split.
Qed.

Lemma process_absent (m : Z * Rect) (g g' : Globals) (info : AssemblyInfo) :
  process m g = Some (info, g') -> present m = false ->
  defect info = false /\ show info = false /\ inc_total info = false.
Proof.
  destruct g, m as [a r]. intros H Hp. prog_run; try discriminate; auto.
Qed.

(** X7: [currentInfo.defect] is a one-frame signal: the frame processed
    after a verdict with [defect] always yields a verdict without it and
    sets [currentInfo.defect] back to false, whether or not it shows a
    part. *)
Theorem defect_flag_lasts_one_frame
    (g g1 g2 : Globals) (m m2 : Z * Rect) (info info2 : AssemblyInfo) :
  process m g = Some (info, g1) -> defect info = true ->
  process m2 g1 = Some (info2, g2) ->
  defect (currentInfo g1) = true /\
  defect info2 = false /\ defect (currentInfo g2) = false.
Proof.
  intros H1 Hd H2.
  destruct (process_currentInfo _ _ _ _ H1) as (Hc1 & _).
  destruct (process_currentInfo _ _ _ _ H2) as (Hc2 & _).
  assert (Hd2 : defect info2 = false).
  { destruct (present m2) eqn:Hp.
    - apply (process_latched _ _ _ _ H2 Hp).
      exact (process_fires_latches _ _ _ _ H1 Hd).
    - apply (process_absent _ _ _ _ H2 Hp). }
  rewrite Hc1, Hc2. auto.
Qed.

Lemma defect_flag_lasts_one_frame_witness :
  exists g info g1 info2 g2,
    process (35000, Rect_default) g = Some (info, g1) /\ defect info = true /\
    process (35000, Rect_default) g1 = Some (info2, g2) /\
    defect (currentInfo g1) = true /\
    defect info2 = false /\ defect (currentInfo g2) = false.
Proof.
  let r := eval vm_compute in
        (processAll (repeat (35000, Rect_default) 10) (globals_init 20000 30000)) in
  lazymatch r with
  | Some (_, ?g) =>
      exists g; eexists _, _, _, _;
      split; [vm_compute; reflexivity|];
      split; [reflexivity|];
      split; [vm_compute; reflexivity|];
      eapply (defect_flag_lasts_one_frame g _ _ (35000, Rect_default)
                (35000, Rect_default));
      [vm_compute; reflexivity | reflexivity | vm_compute; reflexivity]
  end.
Defined.

(** X8: once the defect of a part is confirmed, every later frame that
    shows a part yields [show = true], passing frames included: only a
    frame without a part takes the mark away. *)
Theorem show_stays_while_part_present (ms : list (Z * Rect)) :
  forall (g g' : Globals) (infos : list AssemblyInfo),
  prev_defect g = true ->
  Forall (fun m => present m = true) ms ->
  processAll ms g = Some (infos, g') ->
  Forall (fun i => show i = true) infos /\ prev_defect g' = true.
Proof.
  induction ms as [|m ms IH]; intros g g' infos Hd Hall Hrun.
  - apply processAll_nil in Hrun. destruct Hrun; subst. split; [constructor|exact Hd].
  - apply processAll_cons in Hrun. destruct Hrun as (info & g1 & infos' & H1 & H2 & ->).
    inversion Hall; subst.
    destruct (process_latched _ _ _ _ H1) as [_ Hd1]; auto.
    destruct (process_currentInfo _ _ _ _ H1) as (_ & _ & _ & _ & _ & Hs).
    destruct (IH _ _ _ Hd1 H4 H2) as [Hrest Hd'].
    split; [constructor; [congruence | exact Hrest] | exact Hd'].
Qed.

Lemma show_stays_while_part_present_witness :
  exists g infos g',
    prev_defect g = true /\
    Forall (fun m => present m = true) (repeat (25000, Rect_default) 20) /\
    processAll (repeat (25000, Rect_default) 20) g = Some (infos, g') /\
    Forall (fun i => show i = true) infos /\ prev_defect g' = true.
Proof.
  let r := eval vm_compute in
        (processAll (repeat (35000, Rect_default) 11) (globals_init 20000 30000)) in
  lazymatch r with
  | Some (_, ?g) =>
      exists g; eexists _, _;
      split; [reflexivity|];
      split; [repeat constructor|];
      split; [vm_compute; reflexivity|];
      eapply (show_stays_while_part_present (repeat (25000, Rect_default) 20) g);
      [reflexivity | repeat constructor | vm_compute; reflexivity]
  end.
Defined.

(** ** A part all of whose frames fail *)

Lemma process_failing_frame (m : Z * Rect) (g g' : Globals) (info : AssemblyInfo) :
  process m g = Some (info, g') ->
  present m = true -> frame_fails g (fst m) = true ->
  frame_defect_count g' = frame_defect_count g + 1 /\ prev_seen g' = true /\
  (prev_seen g = false -> defect info = false /\ prev_defect g' = prev_defect g) /\
  (prev_seen g = true -> prev_defect g = false ->
   defect info = (frame_defect_count g + 1 >? 10) /\
   prev_defect g' = (frame_defect_count g + 1 >? 10)).
Proof.
  destruct g, m as [a r]. intros H Hp Hf.
  prog_run; try discriminate; repeat split; intros; try discriminate;
    try reflexivity; try assumption; try lia.
Qed.

Lemma all_failing_bounds (g g1 : Globals) (ms : list (Z * Rect)) :
  min_area g1 = min_area g -> max_area g1 = max_area g ->
  Forall (fun m => present m = true /\ frame_fails g (fst m) = true) ms ->
  Forall (fun m => present m = true /\ frame_fails g1 (fst m) = true) ms.
Proof.
  intros Hmn Hmx. apply Forall_impl. intros m. unfold frame_fails.
  rewrite Hmn, Hmx. auto.
Qed.

Lemma all_failing_present (g : Globals) (ms : list (Z * Rect)) :
  Forall (fun m => present m = true /\ frame_fails g (fst m) = true) ms ->
  Forall (fun m => present m = true) ms.
Proof. apply Forall_impl. intros m [H _]. exact H. Qed.

(** A part already in view whose defect is not yet confirmed: the verdict
    with [defect] comes when the counter passes 10. *)
Lemma failing_run_continues (ms : list (Z * Rect)) :
  forall (g g' : Globals) (infos : list AssemblyInfo) (n : nat),
  prev_seen g = true -> prev_defect g = false ->
  Forall (fun m => present m = true /\ frame_fails g (fst m) = true) ms ->
  processAll ms g = Some (infos, g') ->
  defect_positions n infos =
    if (Z.to_nat (10 - frame_defect_count g) <? List.length ms)%nat
    then [(n + Z.to_nat (10 - frame_defect_count g))%nat] else [].
Proof.
  induction ms as [|m ms IH]; intros g g' infos n Hs Hd Hall Hrun.
  - apply processAll_nil in Hrun. destruct Hrun; subst. reflexivity.
  - apply processAll_cons in Hrun. destruct Hrun as (info & g1 & infos' & H1 & H2 & ->).
    inversion Hall as [|m0 ms0 [Hp Hf] Hrest]; subst.
    destruct (process_bounds _ _ _ _ H1) as [Hmn Hmx].
    destruct (process_failing_frame _ _ _ _ H1 Hp Hf) as (Hc & Hs1 & _ & Hfire).
    destruct (Hfire Hs Hd) as [Hi Hd1].
    cbn [defect_positions List.length]. rewrite Hi.
    destruct (Z.gtb_spec (frame_defect_count g + 1) 10) as [Hgt|Hle].
    + rewrite (defect_positions_none infos').
      * replace (Z.to_nat (10 - frame_defect_count g)) with 0%nat by lia.
        cbn. rewrite Nat.add_0_r. reflexivity.
      * eapply processAll_latched; [|exact Hd1|exact H2].
        eapply all_failing_present. exact Hrest.
    + rewrite (IH g1 g' infos' (S n) Hs1 Hd1 (all_failing_bounds _ _ _ Hmn Hmx Hrest) H2).
      rewrite Hc.
      replace (Z.to_nat (10 - frame_defect_count g))
        with (S (Z.to_nat (10 - (frame_defect_count g + 1)))) by lia.
      change (S ?a <? S ?b)%nat with (a <? b)%nat.
      destruct (Z.to_nat (10 - (frame_defect_count g + 1)) <? List.length ms)%nat;
        [f_equal; lia | reflexivity].
Qed.

(** X9: when the classifier is in its reset state and every frame of a
    sequence shows a part and fails, the one verdict with [defect] is the
    11th, whatever the areas; a sequence of fewer than 11 such frames has
    none. *)
Theorem failing_part_reported_on_frame_11
    (ms : list (Z * Rect)) (g g' : Globals) (infos : list AssemblyInfo) :
  prev_seen g = false -> prev_defect g = false -> frame_defect_count g = 0 ->
  Forall (fun m => present m = true /\ frame_fails g (fst m) = true) ms ->
  processAll ms g = Some (infos, g') ->
  defect_positions 1 infos = if (11 <=? List.length ms)%nat then [11%nat] else [].
Proof.
  intros Hs Hd Hc Hall Hrun. destruct ms as [|m ms].
  - apply processAll_nil in Hrun. destruct Hrun; subst. reflexivity.
  - apply processAll_cons in Hrun. destruct Hrun as (info & g1 & infos' & H1 & H2 & ->).
    inversion Hall as [|m0 ms0 [Hp Hf] Hrest]; subst.
    destruct (process_bounds _ _ _ _ H1) as [Hmn Hmx].
    destruct (process_failing_frame _ _ _ _ H1 Hp Hf) as (Hc1 & Hs1 & Hfirst & _).
    destruct (Hfirst Hs) as [Hi Hd1].
    cbn [defect_positions List.length]. rewrite Hi.
    rewrite (failing_run_continues ms g1 g' infos' 2 Hs1 (eq_trans Hd1 Hd)
               (all_failing_bounds _ _ _ Hmn Hmx Hrest) H2).
    rewrite Hc1, Hc. change (Z.to_nat (10 - (0 + 1))) with 9%nat.
    change (11 <=? S (List.length ms))%nat with (10 <=? List.length ms)%nat.
    destruct (Nat.ltb_spec 9 (List.length ms)), (Nat.leb_spec 10 (List.length ms));
      first [reflexivity | lia].
Qed.

Lemma failing_part_reported_on_frame_11_witness :
  exists infos g',
    processAll (map (fun a => (a, Rect_default))
                  [31000; 19000; 50000; 1; 35000; 35000; 40000; 30001; 19999;
                   100; 60000; 35000])
      (globals_init 20000 30000) = Some (infos, g') /\
    defect_positions 1 infos = [11%nat].
Proof.
  eexists _, _. split; [vm_compute; reflexivity|].
  eapply (failing_part_reported_on_frame_11
            (map (fun a => (a, Rect_default))
               [31000; 19000; 50000; 1; 35000; 35000; 40000; 30001; 19999;
                100; 60000; 35000])
            (globals_init 20000 30000)).
  - reflexivity.
  - reflexivity.
  - reflexivity.
  - repeat constructor.
  - vm_compute; reflexivity.
Defined.

(** ** Passing frames *)

Lemma process_defect_needs_failure (m : Z * Rect) (g g' : Globals) (info : AssemblyInfo) :
  process m g = Some (info, g') -> defect info = true ->
  present m = true /\ frame_fails g (fst m) = true /\ prev_seen g = true.
Proof.
  destruct g, m as [a r]. intros H Hd. prog_run; try discriminate; auto.
Qed.

(** X10: in any sequence of measurements, a verdict with [defect] is the
    verdict of a frame that shows a part and fails: a passing frame never
    reports a defect, however many failing frames came before it. *)
Theorem defect_only_on_failing_frame (ms : list (Z * Rect)) :
  forall (g g' : Globals) (infos : list AssemblyInfo),
  processAll ms g = Some (infos, g') ->
  Forall2 (fun m i => defect i = true ->
                      present m = true /\ frame_fails g (fst m) = true) ms infos.
Proof.
  induction ms as [|m ms IH]; intros g g' infos Hrun.
  - apply processAll_nil in Hrun. destruct Hrun; subst. constructor.
  - apply processAll_cons in Hrun. destruct Hrun as (info & g1 & infos' & H1 & H2 & ->).
    destruct (process_bounds _ _ _ _ H1) as [Hmn Hmx].
    constructor.
    + intros Hd. destruct (process_defect_needs_failure _ _ _ _ H1 Hd) as (Hp & Hf & _).
      auto.
    + eapply Forall2_impl; [|exact (IH _ _ _ H2)].
      intros m' i. cbn. unfold frame_fails. rewrite Hmn, Hmx. auto.
Qed.

Lemma defect_only_on_failing_frame_witness :
  exists infos g',
    processAll (repeat (35000, Rect_default) 11 ++ [(25000, Rect_default)])
      (globals_init 20000 30000) = Some (infos, g') /\
    Forall2 (fun m i => defect i = true ->
                        present m = true /\
                        frame_fails (globals_init 20000 30000) (fst m) = true)
      (repeat (35000, Rect_default) 11 ++ [(25000, Rect_default)]) infos.
Proof.
  eexists _, _. split; [vm_compute; reflexivity|].
  eapply (defect_only_on_failing_frame
            (repeat (35000, Rect_default) 11 ++ [(25000, Rect_default)])
            (globals_init 20000 30000)).
  vm_compute; reflexivity.
Defined.

(** ** The choice of the video source *)

(** X15: [main] opens a camera exactly when the configured input is one
    decimal digit, and then the camera of that number; every other
    string, the empty one and a number of several digits included, is
    opened as a path. *)
Theorem open_source_camera (input : string) :
  (forall n : Z,
     open_source input = Camera n <->
     0 <= n <= 9 /\ input = String (ascii_of_nat (48 + Z.to_nat n)) EmptyString) /\
  ((forall n : Z, open_source input <> Camera n) -> open_source input = Path input).
Proof.
  split.
  - intros n. unfold open_source. split.
    + destruct input as [|c [|c' rest]]; try discriminate.
      change (nat_of_ascii "0") with 48%nat. change (nat_of_ascii "9") with 57%nat.
      destruct (Nat.leb_spec 48 (nat_of_ascii c)); cbn [andb]; [|discriminate].
      destruct (Nat.leb_spec (nat_of_ascii c) 57); [|discriminate].
      intros H'. inversion H'; subst. split; [lia|].
      replace (48 + Z.to_nat (Z.of_nat (nat_of_ascii c) - 48))%nat
        with (nat_of_ascii c) by lia.
      rewrite ascii_nat_embedding. reflexivity.
    + intros [Hn ->].
      assert (E : nat_of_ascii (ascii_of_nat (48 + Z.to_nat n)) = (48 + Z.to_nat n)%nat)
        by (apply nat_ascii_embedding; lia).
      rewrite E. change (nat_of_ascii "0") with 48%nat.
      change (nat_of_ascii "9") with 57%nat.
      destruct (Nat.leb_spec 48 (48 + Z.to_nat n)); [|lia].
      destruct (Nat.leb_spec (48 + Z.to_nat n) 57); [|lia].
      cbn [andb]. f_equal. lia.
  - intros Hno. unfold open_source in *.
    destruct input as [|c [|c' rest]]; try reflexivity.
    destruct ((nat_of_ascii "0" <=? nat_of_ascii c)%nat
              && (nat_of_ascii c <=? nat_of_ascii "9")%nat); [|reflexivity].
    exfalso. eapply Hno. reflexivity.
Qed.

Lemma open_source_camera_witness :
  open_source "7" = Camera 7 /\ open_source "10" = Path "10" /\
  open_source EmptyString = Path EmptyString.
Proof.
  split; [|split].
  - apply (proj1 (open_source_camera "7")). split; [lia | reflexivity].
  - apply (proj2 (open_source_camera "10")). intros n H.
    apply (proj1 (open_source_camera "10")) in H. destruct H as [_ H]. discriminate H.
  - apply (proj2 (open_source_camera EmptyString)). intros n H.
    apply (proj1 (open_source_camera EmptyString)) in H. destruct H as [_ H].
    discriminate H.
Defined.

(** ** Every interleaving of the three loops *)

Lemma messageRunner_iter_core (g g' : Globals) :
  messageRunner_iter g = Some (tt, g') ->
  core g' = core g /\ nextImage g' = nextImage g /\
  keepRunning g' = keepRunning g /\
  List.length (mqtt_out g') = S (List.length (mqtt_out g)).
Proof.
  rewrite messageRunner_iter_result. intros H. inversion H; subst g'. clear H.
  destruct g. cbn. rewrite length_app. cbn. repeat split. lia.
Qed.

Lemma process_total_parts_step (m : Z * Rect) (g g' : Globals) (info : AssemblyInfo) :
  process m g = Some (info, g') ->
  total_parts g' <= total_parts g + 1 /\ keepRunning g' = keepRunning g.
Proof.
  destruct g, m as [a r]. intros H. prog_run; split; first [reflexivity | lia].
Qed.

Lemma process_classifier_consistent (m : Z * Rect) (g g' : Globals) (info : AssemblyInfo) :
  process m g = Some (info, g') -> classifier_consistent g -> classifier_consistent g'.
Proof.
  unfold classifier_consistent. destruct g, m as [a r], currentInfo0.
  intros H (H1 & H2 & H3 & H4 & H5 & H6 & H7).
  prog_run; subst;
    repeat match goal with
           | Hx : ?b = ?b -> _ |- _ => specialize (Hx eq_refl)
           | Hx : _ /\ _ |- _ => destruct Hx
           end; subst;
    repeat split; intros; try discriminate; try reflexivity; try lia.
Qed.

Lemma classifier_consistent_core (g g' : Globals) :
  core g = core g' -> classifier_consistent g -> classifier_consistent g'.
Proof.
  unfold core, classifier_consistent. intros E. inversion E.
  repeat match goal with Hx : _ = _ |- _ => rewrite <- Hx end. auto.
Qed.

Section Interleavings.

Variable contourRects : Mat -> list Rect.
Variable resize : Mat -> Mat.

Lemma main_iter_core (grabbed : Mat) (stop : bool) (g g' : Globals) (b : bool) :
  main_iter resize grabbed stop g = Some (b, g') ->
  core g' = core g /\ mqtt_out g' = mqtt_out g /\
  (keepRunning g' = true -> keepRunning g = true) /\
  Z.of_nat (List.length (nextImage g'))
    <= Z.of_nat (List.length (nextImage g)) + (if Mat_empty grabbed then 0 else 1).
Proof.
  destruct g. intros H.
  prog_run; cbn; repeat split; intros; try discriminate; try assumption; cbn; lia.
Qed.

Lemma turn_keepRunning (t : Turn) (g g' : Globals) :
  turn contourRects resize t g = Some (tt, g') ->
  keepRunning g' = true -> keepRunning g = true.
Proof.
  destruct t as [grabbed stop| |]; cbn [turn]; unfold bind, gets, when, ret.
  - destruct (main_iter resize grabbed stop g) as [[b g1]|] eqn:E; [|discriminate].
    intros H. inversion H; subst.
    destruct (main_iter_core _ _ _ _ _ E) as (_ & _ & Hk & _). exact Hk.
  - destruct (keepRunning g) eqn:K; [reflexivity|].
    intros H. inversion H; subst. congruence.
  - destruct (keepRunning g) eqn:K; [reflexivity|].
    intros H. inversion H; subst. congruence.
Qed.

Lemma schedule_keepRunning (ts : list Turn) :
  forall g g' : Globals,
  schedule contourRects resize ts g = Some (tt, g') ->
  keepRunning g' = true -> keepRunning g = true.
Proof.
  induction ts as [|t ts IH]; intros g g' H K.
  - cbn in H. unfold ret in H. inversion H; subst. exact K.
  - cbn [schedule] in H. unfold bind in H.
    destruct (turn contourRects resize t g) as [[[] g1]|] eqn:E; [|discriminate].
    eauto using turn_keepRunning.
Qed.

(** A property of the globals of the classification that [process] keeps
    holds after every schedule. *)
Lemma schedule_invariant (P : Globals -> Prop) :
  (forall g g', core g = core g' -> P g -> P g') ->
  (forall m g info g', process m g = Some (info, g') -> P g -> P g') ->
  forall (ts : list Turn) (g g' : Globals),
  schedule contourRects resize ts g = Some (tt, g') -> P g -> P g'.
Proof.
  intros Hcore Hproc. induction ts as [|t ts IH]; intros g g' H Pg.
  - cbn in H. unfold ret in H. inversion H; subst. exact Pg.
  - cbn [schedule] in H. unfold bind in H.
    destruct (turn contourRects resize t g) as [[[] g1]|] eqn:E; [|discriminate].
    apply (IH g1 g' H). clear H IH.
    destruct t as [grabbed stop| |]; cbn [turn] in E; unfold bind, gets, when, ret in E.
    + destruct (main_iter resize grabbed stop g) as [[b g2]|] eqn:Em; [|discriminate].
      inversion E; subst.
      apply (Hcore g); [|exact Pg]. symmetry. apply (main_iter_core _ _ _ _ _ Em).
    + destruct (keepRunning g); [|inversion E; subst; exact Pg].
      destruct (frameRunner_iter contourRects g) as [[[] g2]|] eqn:Ef; [|discriminate].
      inversion E; subst.
      destruct (frameRunner_iter_cases _ _ _ Ef)
        as [[_ ->] | (next & rest & Hn & [[_ ->] | (_ & m & info & _ & Hp)])].
      * exact Pg.
      * apply (Hcore g); [destruct g; reflexivity | exact Pg].
      * apply (Hproc _ _ _ _ Hp). apply (Hcore g); [destruct g; reflexivity | exact Pg].
    + destruct (keepRunning g); [|inversion E; subst; exact Pg].
      destruct (messageRunner_iter g) as [[[] g2]|] eqn:Em; [|discriminate].
      inversion E; subst.
      apply (Hcore g); [|exact Pg]. symmetry. apply (messageRunner_iter_core _ _ Em).
Qed.

(** X11: in every state the program reaches from its start, under any
    interleaving of the three loops: while no part is in view the defect
    mark and both frame counters are clear; no counter is negative;
    [currentInfo.show] equals [prev_defect]; and [currentInfo.inc_total]
    is false. *)
Theorem reachable_classifier_consistent
    (minarea maxarea : Z) (ts : list Turn) (g' : Globals) :
  schedule contourRects resize ts (globals_init minarea maxarea) = Some (tt, g') ->
  classifier_consistent g'.
Proof.
  intros H.
  apply (schedule_invariant classifier_consistent classifier_consistent_core
           (fun m g info g1 => process_classifier_consistent m g g1 info) ts _ _ H).
  unfold classifier_consistent. cbn. repeat split; lia.
Qed.

Lemma frameRunner_iter_step (g g' : Globals) :
  frameRunner_iter contourRects g = Some (tt, g') ->
  keepRunning g' = keepRunning g /\ mqtt_out g' = mqtt_out g /\
  total_parts g <= total_parts g' <= total_parts g + 1 /\
  total_defects g <= total_defects g' <= total_defects g + 1.
Proof.
  intros H.
  destruct (frameRunner_iter_cases _ _ _ H)
    as [[_ ->] | (next & rest & Hn & [[_ ->] | (_ & m & info & _ & Hp)])].
  - repeat split; lia.
  - destruct g. cbn. repeat split; lia.
  - destruct (process_totals _ _ _ _ Hp) as (Ht & Hd & _).
    destruct (process_total_parts_step _ _ _ _ Hp) as [_ Hk].
    destruct (process_frame_fields _ _ _ _ Hp) as (Hm & _).
    rewrite Hk, Hm, Ht, Hd. destruct g. cbn.
    destruct (inc_total info), (defect info); repeat split; lia.
Qed.

(** X12: with the loop tests and the loop bodies as separate steps: once
    [keepRunning] is false it stays false; a background loop that is
    before its test does nothing more, and one that is past its test
    finishes that one iteration: the worker classifies at most one more
    frame (the totals grow by at most one, and not at all if it was
    before its test), the publisher sends at most one more message. *)
Theorem shutdown_lets_one_iteration_finish (ts : list FineTurn) :
  forall (th th' : Threads) (g g' : Globals),
  keepRunning g = false ->
  fine_schedule contourRects resize ts th g = Some (th', g') ->
  keepRunning g' = false /\
  (worker_in_body th = false -> core g' = core g) /\
  total_parts g <= total_parts g'
    <= total_parts g + (if worker_in_body th then 1 else 0) /\
  total_defects g <= total_defects g'
    <= total_defects g + (if worker_in_body th then 1 else 0) /\
  (List.length (mqtt_out g) <= List.length (mqtt_out g')
   <= List.length (mqtt_out g) + (if publisher_in_body th then 1 else 0))%nat.
Proof.
  induction ts as [|t ts IH]; intros th th' g g' K H.
  - cbn in H. unfold ret in H. inversion H; subst.
    repeat split; try assumption; try reflexivity;
      destruct (worker_in_body th'), (publisher_in_body th'); lia.
  - cbn [fine_schedule] in H. unfold bind at 1 in H.
    destruct (fine_turn contourRects resize t th g) as [[th1 g1]|] eqn:E; [|discriminate].
    destruct th as [w p].
    destruct t as [grabbed| | | | | ]; cbn [fine_turn worker_in_body publisher_in_body] in E.
    + unfold bind, ret in E.
      destruct (main_iter resize grabbed false g) as [[b g2]|] eqn:Em; [|discriminate].
      inversion E; subst.
      destruct (main_iter_core _ _ _ _ _ Em) as (Hc & Hm & Hk & _).
      assert (K1 : keepRunning g1 = false)
        by (destruct (keepRunning g1); [specialize (Hk eq_refl); congruence | reflexivity]).
      destruct (IH _ _ _ _ K1 H) as (K' & Hcore & Htp & Htd & Hmq).
      unfold core in Hc. inversion Hc. cbn [worker_in_body publisher_in_body] in *.
      rewrite Hm in Hmq. repeat split; try assumption; try lia.
      intros Hw. rewrite (Hcore Hw). unfold core. congruence.
    + cbv [bind modify ret] in E. inversion E; subst.
      assert (K1 : keepRunning (set_keepRunning false g) = false) by reflexivity.
      destruct (IH _ _ _ _ K1 H) as (K' & Hcore & Htp & Htd & Hmq).
      cbn [worker_in_body publisher_in_body] in *.
      destruct g. cbn in *. subst. repeat split; try assumption; try lia.
    + destruct w.
      * unfold ret in E. inversion E; subst. apply (IH _ _ _ _ K H).
      * cbv [bind gets ret] in E. rewrite K in E. inversion E; subst.
        apply (IH _ _ _ _ K H).
    + destruct w.
      * unfold bind, ret in E.
        destruct (frameRunner_iter contourRects g) as [[[] g2]|] eqn:Ef; [|discriminate].
        inversion E; subst.
        destruct (frameRunner_iter_step _ _ Ef) as (Hk & Hm & Htp1 & Htd1).
        assert (K1 : keepRunning g1 = false) by congruence.
        destruct (IH _ _ _ _ K1 H) as (K' & Hcore & Htp & Htd & Hmq).
        cbn [worker_in_body publisher_in_body] in *.
        specialize (Hcore eq_refl). unfold core in Hcore. inversion Hcore.
        rewrite Hm in Hmq.
        repeat split; try assumption; try discriminate; try lia.
      * unfold ret in E. inversion E; subst. apply (IH _ _ _ _ K H).
    + destruct p.
      * unfold ret in E. inversion E; subst. apply (IH _ _ _ _ K H).
      * cbv [bind gets ret] in E. rewrite K in E. inversion E; subst.
        apply (IH _ _ _ _ K H).
    + destruct p.
      * unfold bind, ret in E.
        destruct (messageRunner_iter g) as [[[] g2]|] eqn:Em; [|discriminate].
        inversion E; subst.
        destruct (messageRunner_iter_core _ _ Em) as (Hc & _ & Hk & Hl).
        assert (K1 : keepRunning g1 = false) by congruence.
        destruct (IH _ _ _ _ K1 H) as (K' & Hcore & Htp & Htd & Hmq).
        cbn [worker_in_body publisher_in_body] in *.
        unfold core in Hc. inversion Hc.
        repeat split; try assumption; try lia.
        intros Hw. rewrite (Hcore Hw). unfold core. congruence.
      * unfold ret in E. inversion E; subst. apply (IH _ _ _ _ K H).
Qed.

(** X13: under any interleaving, [total_parts] plus the number of frames
    waiting in the queue grows by at most the number of frames, not
    empty, that the capture loop grabbed: no frame is classified twice. *)
Theorem parts_bounded_by_captured (ts : list Turn) :
  forall g g' : Globals,
  schedule contourRects resize ts g = Some (tt, g') ->
  total_parts g' + Z.of_nat (List.length (nextImage g'))
    <= total_parts g + Z.of_nat (List.length (nextImage g)) + captured ts.
Proof.
  induction ts as [|t ts IH]; intros g g' H.
  - cbn in H. unfold ret in H. inversion H; subst. cbn. lia.
  - cbn [schedule] in H. unfold bind in H.
    destruct (turn contourRects resize t g) as [[[] g1]|] eqn:E; [|discriminate].
    specialize (IH g1 g' H).
    destruct t as [grabbed stop| |]; cbn [turn] in E; unfold bind, gets, when, ret in E;
      cbn [captured].
    + destruct (main_iter resize grabbed stop g) as [[b g2]|] eqn:Em; [|discriminate].
      inversion E; subst. destruct (main_iter_core _ _ _ _ _ Em) as (Hc & _ & _ & Hq).
      unfold core in Hc. inversion Hc. lia.
    + destruct (keepRunning g); [|inversion E; subst; lia].
      destruct (frameRunner_iter contourRects g) as [[[] g2]|] eqn:Ef; [|discriminate].
      inversion E; subst.
      destruct (frameRunner_iter_cases _ _ _ Ef)
        as [[_ ->] | (next & rest & Hn & [[_ ->] | (_ & m & info & _ & Hp)])].
      * lia.
      * rewrite Hn in *. destruct g. cbn in *. lia.
      * destruct (process_total_parts_step _ _ _ _ Hp) as [Ht _].
        destruct (process_frame_fields _ _ _ _ Hp) as (_ & Hq & _).
        rewrite Hn in *. rewrite Hq in *. destruct g. cbn in *. lia.
    + destruct (keepRunning g); [|inversion E; subst; lia].
      destruct (messageRunner_iter g) as [[[] g2]|] eqn:Em; [|discriminate].
      inversion E; subst. destruct (messageRunner_iter_core _ _ Em) as (Hc & Hq & _).
      unfold core in Hc. inversion Hc. rewrite Hq in *. lia.
Qed.

(** X14: while [keepRunning] is still true at the end of a schedule, the
    publisher has sent exactly one message per turn it was given, and the
    other loops none. *)
Theorem one_message_per_publisher_turn (ts : list Turn) :
  forall g g' : Globals,
  schedule contourRects resize ts g = Some (tt, g') ->
  keepRunning g' = true ->
  Z.of_nat (List.length (mqtt_out g'))
    = Z.of_nat (List.length (mqtt_out g)) + publisher_turns ts.
Proof.
  induction ts as [|t ts IH]; intros g g' H K.
  - cbn in H. unfold ret in H. inversion H; subst. cbn. lia.
  - cbn [schedule] in H. unfold bind in H.
    destruct (turn contourRects resize t g) as [[[] g1]|] eqn:E; [|discriminate].
    specialize (IH g1 g' H K).
    assert (K1 : keepRunning g1 = true) by (eapply schedule_keepRunning; eauto).
    assert (K0 : keepRunning g = true) by (eapply turn_keepRunning; eauto).
    destruct t as [grabbed stop| |]; cbn [turn] in E; unfold bind, gets, when, ret in E;
      cbn [publisher_turns].
    + destruct (main_iter resize grabbed stop g) as [[b g2]|] eqn:Em; [|discriminate].
      inversion E; subst. destruct (main_iter_core _ _ _ _ _ Em) as (_ & Hm & _).
      rewrite Hm in IH. lia.
    + rewrite K0 in E.
      destruct (frameRunner_iter contourRects g) as [[[] g2]|] eqn:Ef; [|discriminate].
      inversion E; subst.
      destruct (frameRunner_iter_cases _ _ _ Ef)
        as [[_ ->] | (next & rest & Hn & [[_ ->] | (_ & m & info & _ & Hp)])].
      * lia.
      * destruct g. cbn in *. lia.
      * destruct (process_frame_fields _ _ _ _ Hp) as (Hm & _).
        rewrite Hm in IH. destruct g. cbn in *. lia.
    + rewrite K0 in E.
      destruct (messageRunner_iter g) as [[[] g2]|] eqn:Em; [|discriminate].
      inversion E; subst. destruct (messageRunner_iter_core _ _ Em) as (_ & _ & _ & Hl).
      rewrite Hl in IH. lia.
Qed.

End Interleavings.

Lemma reachable_classifier_consistent_witness :
  exists g',
    schedule (fun m : Mat => map (fun w => mkRect 1 1 w w) (data m))
      (fun m : Mat => mkMat 540 960 (data m))
      [Capture (mkMat 1080 1920 [200]) false; Worker; Publisher;
       Capture (mkMat 1080 1920 [150]) false; Worker]
      (globals_init 20000 30000) = Some (tt, g') /\
    classifier_consistent g'.
Proof.
  eexists. split; [vm_compute; reflexivity|].
  eapply (reachable_classifier_consistent
            (fun m : Mat => map (fun w => mkRect 1 1 w w) (data m))
            (fun m : Mat => mkMat 540 960 (data m)) 20000 30000
            [Capture (mkMat 1080 1920 [200]) false; Worker; Publisher;
             Capture (mkMat 1080 1920 [150]) false; Worker]).
  vm_compute; reflexivity.
Defined.

Lemma shutdown_lets_one_iteration_finish_witness :
  exists th g th' g',
    fine_schedule (fun m : Mat => map (fun w => mkRect 1 1 w w) (data m))
      (fun m : Mat => mkMat 540 960 (data m))
      [Grab (mkMat 1080 1920 [200]); WorkerTest; PublisherTest; Stop]
      (mkThreads false false) (globals_init 20000 30000) = Some (th, g) /\
    keepRunning g = false /\
    fine_schedule (fun m : Mat => map (fun w => mkRect 1 1 w w) (data m))
      (fun m : Mat => mkMat 540 960 (data m))
      [WorkerBody; PublisherBody; WorkerTest; WorkerBody; PublisherTest;
       PublisherBody; Grab (mkMat 1080 1920 [150]); WorkerTest; WorkerBody]
      th g = Some (th', g') /\
    keepRunning g' = false /\
    total_parts g' = 1 /\
    total_parts g' <= total_parts g + (if worker_in_body th then 1 else 0) /\
    (List.length (mqtt_out g') <= List.length (mqtt_out g)
                                  + (if publisher_in_body th then 1 else 0))%nat.
Proof.
  let r := eval vm_compute in
        (fine_schedule (fun m : Mat => map (fun w => mkRect 1 1 w w) (data m))
           (fun m : Mat => mkMat 540 960 (data m))
           [Grab (mkMat 1080 1920 [200]); WorkerTest; PublisherTest; Stop]
           (mkThreads false false) (globals_init 20000 30000)) in
  lazymatch r with
  | Some (?th, ?g) =>
      let r2 := eval vm_compute in
            (fine_schedule (fun m : Mat => map (fun w => mkRect 1 1 w w) (data m))
               (fun m : Mat => mkMat 540 960 (data m))
               [WorkerBody; PublisherBody; WorkerTest; WorkerBody; PublisherTest;
                PublisherBody; Grab (mkMat 1080 1920 [150]); WorkerTest; WorkerBody]
               th g) in
      lazymatch r2 with
      | Some (?th2, ?g2) =>
          exists th, g, th2, g2;
          split; [vm_compute; reflexivity|];
          split; [reflexivity|];
          split; [vm_compute; reflexivity|];
          assert (K : keepRunning g = false) by reflexivity;
          assert (H : fine_schedule
                        (fun m : Mat => map (fun w => mkRect 1 1 w w) (data m))
                        (fun m : Mat => mkMat 540 960 (data m))
                        [WorkerBody; PublisherBody; WorkerTest; WorkerBody;
                         PublisherTest; PublisherBody; Grab (mkMat 1080 1920 [150]);
                         WorkerTest; WorkerBody] th g = Some (th2, g2))
            by (vm_compute; reflexivity);
          destruct (shutdown_lets_one_iteration_finish _ _ _ _ _ _ _ K H)
            as (K' & _ & Htp & _ & Hmq);
          split; [exact K'|]; split; [reflexivity|];
          split; [exact (proj2 Htp) | exact (proj2 Hmq)]
      end
  end.
Defined.

Lemma parts_bounded_by_captured_witness :
  exists g',
    schedule (fun m : Mat => map (fun w => mkRect 1 1 w w) (data m))
      (fun m : Mat => mkMat 540 960 (data m))
      [Capture (mkMat 1080 1920 [200]) false; Capture (mkMat 1080 1920 [150]) false;
       Worker; Worker; Capture (mkMat 1080 1920 [150]) false]
      (globals_init 20000 30000) = Some (tt, g') /\
    total_parts g' + Z.of_nat (List.length (nextImage g')) <= 3.
Proof.
  eexists. split; [vm_compute; reflexivity|].
  eapply (parts_bounded_by_captured
            (fun m : Mat => map (fun w => mkRect 1 1 w w) (data m))
            (fun m : Mat => mkMat 540 960 (data m))
            [Capture (mkMat 1080 1920 [200]) false; Capture (mkMat 1080 1920 [150]) false;
             Worker; Worker; Capture (mkMat 1080 1920 [150]) false]
            (globals_init 20000 30000)).
  vm_compute; reflexivity.
Defined.

Lemma one_message_per_publisher_turn_witness :
  exists g',
    schedule (fun m : Mat => map (fun w => mkRect 1 1 w w) (data m))
      (fun m : Mat => mkMat 540 960 (data m))
      [Publisher; Capture (mkMat 1080 1920 [200]) false; Worker; Publisher]
      (globals_init 20000 30000) = Some (tt, g') /\
    keepRunning g' = true /\
    Z.of_nat (List.length (mqtt_out g')) = 2.
Proof.
  eexists. split; [vm_compute; reflexivity|]. split; [reflexivity|].
  eapply (one_message_per_publisher_turn
            (fun m : Mat => map (fun w => mkRect 1 1 w w) (data m))
            (fun m : Mat => mkMat 540 960 (data m))
            [Publisher; Capture (mkMat 1080 1920 [200]) false; Worker; Publisher]
            (globals_init 20000 30000)).
  - vm_compute; reflexivity.
  - reflexivity.
Defined.

(** A control message leaves everything but the log alone. *)
Lemma handleMQTTControlMessages_core (topicName : string) (g : Globals) :
  exists g',
    handleMQTTControlMessages topicName g = Some (1, g') /\
    core g' = core g /\ mqtt_out g' = mqtt_out g /\ nextImage g' = nextImage g /\
    keepRunning g' = keepRunning g.
Proof.
  destruct g. eexists. split; [reflexivity|]. repeat split.
Qed.
